(** * lark/parser_frontends.py: the frontend coordination layer

    The frontends glue a lexing strategy to a parsing engine.  Lexers,
    engines, the post-lex transform and the regular-expression library are
    collaborators that live outside this file of the repository; they are
    kept abstract (class [Collaborators] for their types and pure
    attributes, a [Handler] for their effectful calls).  The frontends
    themselves are written as programs over these calls, with the instance
    attributes ([self.x]) held in an explicit attribute dictionary. *)

From stdpp Require Import base option list strings gmap.
From Stdlib Require Import ZArith Lia Ascii.

Local Open Scope Z_scope.
Local Open Scope string_scope.

(** ** Exceptions and results *)

(** The exceptions that cross this layer.  [GrammarError] carries the two
    values that the source formats into its message; [ConfigurationError]
    is the registry's failure; [Foreign] is any other exception raised by
    a collaborator. *)
Inductive exn : Type :=
| GrammarError (regexp : string) (width : Z * Z)
| AssertionError (msg : string)
| KeyError (key : string)
| AttributeError (attr : string)
| IndexError (idx : nat)
| ConfigurationError (name : string)
| Foreign (what : string).

Inductive Result (A : Type) : Type :=
| Ok (a : A)
| Raise (e : exn).
#[global] Arguments Ok {A} a.
#[global] Arguments Raise {A} e.

Definition is_Ok {A} (r : Result A) : bool :=
  match r with Ok _ => true | Raise _ => false end.

Definition is_GrammarError {A} (r : Result A) : bool :=
  match r with Raise (GrammarError _ _) => true | _ => false end.

Definition Ambiguous : exn := AssertionError "Ambiguious Parse! Not handled yet".

(** ** Collaborators *)

(** Types of the objects owned by collaborators, and the attributes and
    pure functions the frontends read from them. *)
Class Collaborators : Type := {
  TokenDef : Type;
  PostLex : Type;
  Callable : Type;
  Token : Type;
  Stream : Type;
  Tree : Type;
  Lexer : Type;
  ContextualLexer : Type;
  LalrParser : Type;
  EarleyParser : Type;
  NearleyParser : Type;
  Action : Type;
  CompiledRe : Type;
  (* t.name and t.to_regexp() of a token definition *)
  tokendef_name : TokenDef -> string;
  to_regexp : TokenDef -> string;
  (* common.is_terminal *)
  is_terminal : string -> bool;
  (* sre_parse.parse(regexp).getwidth() and re.compile(regexp) *)
  sre_getwidth : string -> Result (Z * Z);
  re_compile : string -> Result CompiledRe;
  (* postlex.always_accept *)
  always_accept : PostLex -> list string;
  (* parser.analysis.states_idx: state index -> (token kind -> action) *)
  states_idx : LalrParser -> gmap nat (gmap string Action)
}.

Section Model.
Context `{C : Collaborators}.

(** ** Configuration objects *)

Record LexerConf : Type := {
  tokens : list TokenDef;
  ignore : list string;
  postlex : option PostLex
}.

(** [ParserConf(rules, callback, start)]; a rule is [(name, expansion,
    action)].  The callback object is its attribute dictionary. *)
Record ParserConf (S : Type) : Type := {
  rules : list (string * list S * string);
  callback : gmap string Callable;
  start : string
}.
#[global] Arguments rules {S} _.
#[global] Arguments callback {S} _.
#[global] Arguments start {S} _.

(** ** Symbols as the engines receive them *)

Inductive PyItem : Type :=
| PStr (s : string)
| PNone
| PRegex (r : CompiledRe)
| PMatch (r : CompiledRe).

(** A symbol of a translated expansion: a plain string, or a tuple. *)
Inductive PySym : Type :=
| SymStr (s : string)
| SymTuple (items : list PyItem).

Definition is_tuple (s : PySym) : bool :=
  match s with SymTuple _ => true | SymStr _ => false end.

Definition tuple_len (s : PySym) : option nat :=
  match s with SymTuple items => Some (length items) | SymStr _ => None end.

(** The rule dictionaries handed to the nearley engine. *)
Record NearleyRule : Type := {
  nr_name : string;
  nr_symbols : list PySym;
  nr_postprocess : Callable
}.

(** ** Calls into collaborators *)

Inductive TokenSeq : Type :=
| SeqList (l : list Token)
| SeqStream (s : Stream).

Inductive ChartInput : Type :=
| InTokens (l : list Token)
| InText (text : string).

Inductive Cmd : Type :=
| NewLexer (toks : list TokenDef) (ign : list string)
| NewContextualLexer (toks : list TokenDef) (d : gmap nat (gset string))
                     (ign : list string) (always : list string)
| NewLalrParser (pc : ParserConf string)
| NewEarleyParser (pc : ParserConf PySym)
| NewNearleyParser (rs : list NearleyRule) (st : string)
| LexerLex (l : Lexer) (text : string)
| ContextualLexerLex (l : ContextualLexer) (text : string)
| PostLexProcess (p : PostLex) (s : Stream)
| ListOf (s : Stream)
| LalrParse (p : LalrParser) (seq : TokenSeq) (set_state : option ContextualLexer)
| EarleyParse (p : EarleyParser) (input : ChartInput)
| NearleyParse (p : NearleyParser) (input : ChartInput).

Definition Answer (c : Cmd) : Type :=
  match c with
  | NewLexer _ _ => Lexer
  | NewContextualLexer _ _ _ _ => ContextualLexer
  | NewLalrParser _ => LalrParser
  | NewEarleyParser _ => EarleyParser
  | NewNearleyParser _ _ => NearleyParser
  | LexerLex _ _ => Stream
  | ContextualLexerLex _ _ => Stream
  | PostLexProcess _ _ => Stream
  | ListOf _ => list Token
  | LalrParse _ _ _ => Tree
  | EarleyParse _ _ => list Tree
  | NearleyParse _ _ => list Tree
  end.

(** Does the call construct a lexer or an engine? *)
Definition is_construction (c : Cmd) : bool :=
  match c with
  | NewLexer _ _ | NewContextualLexer _ _ _ _ | NewLalrParser _
  | NewEarleyParser _ | NewNearleyParser _ _ => true
  | _ => false
  end.

(** ** Instance attributes *)

Inductive Value : Type :=
| VLexerConf (lc : LexerConf)
| VParserConf (pc : ParserConf string)
| VLexer (l : Lexer)
| VContextualLexer (l : ContextualLexer)
| VLalrParser (p : LalrParser)
| VEarleyParser (p : EarleyParser)
| VNearleyParser (p : NearleyParser)
| VTokenByName (m : gmap string TokenDef).

(** ** Programs *)

Inductive Prog (A : Type) : Type :=
| Return (a : A)
| Throw (e : exn)
| GetAttr (name : string) (k : Value -> Prog A)
| SetAttr (name : string) (v : Value) (k : Prog A)
| Call (c : Cmd) (k : Answer c -> Prog A).
#[global] Arguments Return {A} a.
#[global] Arguments Throw {A} e.
#[global] Arguments GetAttr {A} name k.
#[global] Arguments SetAttr {A} name v k.
#[global] Arguments Call {A} c k.

Fixpoint bind {A B} (m : Prog A) (f : A -> Prog B) : Prog B :=
  match m with
  | Return a => f a
  | Throw e => Throw e
  | GetAttr n k => GetAttr n (fun v => bind (k v) f)
  | SetAttr n v k => SetAttr n v (bind k f)
  | Call c k => Call c (fun x => bind (k x) f)
  end.

Definition call (c : Cmd) : Prog (Answer c) := Call c Return.
Definition setattr (name : string) (v : Value) : Prog unit := SetAttr name v (Return tt).
Definition getattr (name : string) : Prog Value := GetAttr name Return.
Definition lift {A} (r : Result A) : Prog A :=
  match r with Ok a => Return a | Raise e => Throw e end.

End Model.

Arguments ParserConf {C} S.
Arguments Prog {C} A.

Declare Scope prog_scope.
Delimit Scope prog_scope with prog.
Notation "'do' x <- m ; k" := (bind m (fun x => k))
  (at level 10, x name, m at level 100, k at level 200) : prog_scope.
Notation "'do' ' p <- m ; k" := (bind m (fun x => match x with p => k end))
  (at level 10, p pattern, m at level 100, k at level 200) : prog_scope.
Notation "'exec' m ; k" := (bind m (fun _ => k))
  (at level 10, m at level 100, k at level 200) : prog_scope.
Local Open Scope prog_scope.

(** ** Running a program

    A handler answers the calls into collaborators; [W] is the state of
    the collaborators' objects, which any call may change.  Running a
    program threads the instance's attribute dictionary and [W], and
    records the calls made, in order. *)

Section Semantics.
Context `{C : Collaborators}.
Context {W : Type}.

Definition Handler : Type := forall c : Cmd, W -> Result (Answer c) * W.

Record Outcome (A : Type) : Type := {
  result : Result A;
  obj : gmap string Value;
  world : W;
  trace : list Cmd
}.
#[global] Arguments result {A} _.
#[global] Arguments obj {A} _.
#[global] Arguments world {A} _.
#[global] Arguments trace {A} _.

Definition logged {A} (c : Cmd) (r : Outcome A) : Outcome A :=
  {| result := result r; obj := obj r; world := world r; trace := c :: trace r |}.

Fixpoint run {A} (h : Handler) (p : Prog A) (o : gmap string Value) (w : W) : Outcome A :=
  match p with
  | Return a => {| result := Ok a; obj := o; world := w; trace := [] |}
  | Throw e => {| result := Raise e; obj := o; world := w; trace := [] |}
  | GetAttr n k =>
      match o !! n with
      | Some v => run h (k v) o w
      | None => {| result := Raise (AttributeError n); obj := o; world := w; trace := [] |}
      end
  | SetAttr n v k => run h k (<[n := v]> o) w
  | Call c k =>
      match h c w with
      | (Ok x, w') => logged c (run h (k x) o w')
      | (Raise e, w') => {| result := Raise e; obj := o; world := w'; trace := [c] |}
      end
  end.

(** Sequencing two runs. *)
Definition after {A B} (r1 : Outcome A) (k : A -> gmap string Value -> W -> Outcome B) : Outcome B :=
  match result r1 with
  | Ok a =>
      let r2 := k a (obj r1) (world r1) in
      {| result := result r2; obj := obj r2; world := world r2;
         trace := trace r1 ++ trace r2 |}
  | Raise e =>
      {| result := Raise e; obj := obj r1; world := world r1; trace := trace r1 |}
  end.

End Semantics.

Arguments Handler {C} W.
Arguments Outcome {C} W A.

(** ** The frontends *)

Section Frontends.
Context `{C : Collaborators}.

(** Typed reads of [self] attributes.  An attribute holding an object of
    another class has none of the attributes or methods used on it. *)
Definition self_lexer_conf : Prog LexerConf :=
  do v <- getattr "lexer_conf";
  match v with VLexerConf lc => Return lc | _ => Throw (AttributeError "lexer_conf") end.

Definition self_lexer : Prog Lexer :=
  do v <- getattr "lexer";
  match v with VLexer l => Return l | _ => Throw (AttributeError "lexer") end.

Definition self_contextual_lexer : Prog ContextualLexer :=
  do v <- getattr "lexer";
  match v with VContextualLexer l => Return l | _ => Throw (AttributeError "lexer") end.

Definition self_lalr_parser : Prog LalrParser :=
  do v <- getattr "parser";
  match v with VLalrParser p => Return p | _ => Throw (AttributeError "parser") end.

Definition self_earley_parser : Prog EarleyParser :=
  do v <- getattr "parser";
  match v with VEarleyParser p => Return p | _ => Throw (AttributeError "parser") end.

Definition self_nearley_parser : Prog NearleyParser :=
  do v <- getattr "parser";
  match v with VNearleyParser p => Return p | _ => Throw (AttributeError "parser") end.

Definition self_token_by_name : Prog (gmap string TokenDef) :=
  do v <- getattr "token_by_name";
  match v with VTokenByName m => Return m | _ => Throw (AttributeError "token_by_name") end.

(** A list comprehension whose body may raise: elements in order, the
    first exception ends it. *)
Fixpoint for_each {A B} (f : A -> Prog B) (l : list A) : Prog (list B) :=
  match l with
  | [] => Return []
  | x :: l' => do y <- f x; do ys <- for_each f l'; Return (y :: ys)
  end.

(** [getattr(parser_conf.callback, a)] *)
Definition callback_getattr (cb : gmap string Callable) (a : string) : Prog Callable :=
  match cb !! a with
  | Some f => Return f
  | None => Throw (AttributeError a)
  end.

(** [assert len(res) == 1, '...'; return res[0]] (assertions enabled) *)
Definition single_parse (res : list Tree) : Prog Tree :=
  if decide (length res = 1%nat)
  then match res !! 0%nat with Some t => Return t | None => Throw (IndexError 0) end
  else Throw Ambiguous.

(** *** class WithLexer *)

Definition WithLexer___init__ (lexer_conf : LexerConf) : Prog unit :=
  exec setattr "lexer_conf" (VLexerConf lexer_conf);
  do l <- call (NewLexer (tokens lexer_conf) (ignore lexer_conf));
  setattr "lexer" (VLexer l).

Definition WithLexer_lex (text : string) : Prog Stream :=
  do l <- self_lexer;
  do stream <- call (LexerLex l text);
  do lc <- self_lexer_conf;
  match postlex lc with
  | Some _ =>
      do lc' <- self_lexer_conf;
      match postlex lc' with
      | Some p => call (PostLexProcess p stream)
      | None => Throw (AttributeError "process")
      end
  | None => Return stream
  end.

(** [list(self.lex(text))] *)
Definition list_lex (text : string) : Prog (list Token) :=
  do stream <- WithLexer_lex text;
  call (ListOf stream).

(** *** class LALR(WithLexer) *)

Definition LALR___init__ (lexer_conf : LexerConf) (parser_conf : ParserConf string) : Prog unit :=
  exec WithLexer___init__ lexer_conf;
  exec setattr "parser_conf" (VParserConf parser_conf);
  do p <- call (NewLalrParser parser_conf);
  setattr "parser" (VLalrParser p).

Definition LALR_parse (text : string) : Prog Tree :=
  do toks <- list_lex text;
  do p <- self_lalr_parser;
  call (LalrParse p (SeqList toks) None).

(** *** class LALR_ContextualLexer *)

(** [{idx: t.keys() for idx, t in states_idx.items()}] *)
Definition state_token_kinds (p : LalrParser) : gmap nat (gset string) :=
  (fun t : gmap string Action => dom t) <$> states_idx p.

(** [lexer_conf.postlex.always_accept if lexer_conf.postlex else ()] *)
Definition always_accept_of (lexer_conf : LexerConf) : list string :=
  match postlex lexer_conf with
  | Some p => always_accept p
  | None => []
  end.

Definition LALR_ContextualLexer___init__
    (lexer_conf : LexerConf) (parser_conf : ParserConf string) : Prog unit :=
  exec setattr "lexer_conf" (VLexerConf lexer_conf);
  exec setattr "parser_conf" (VParserConf parser_conf);
  do p <- call (NewLalrParser parser_conf);
  exec setattr "parser" (VLalrParser p);
  do p' <- self_lalr_parser;
  let d := state_token_kinds p' in
  do l <- call (NewContextualLexer (tokens lexer_conf) d (ignore lexer_conf)
                                   (always_accept_of lexer_conf));
  setattr "lexer" (VContextualLexer l).

Definition LALR_ContextualLexer_parse (text : string) : Prog Tree :=
  do l <- self_contextual_lexer;
  do toks <- call (ContextualLexerLex l text);
  do lc <- self_lexer_conf;
  do toks' <-
    match postlex lc with
    | Some _ =>
        do lc' <- self_lexer_conf;
        match postlex lc' with
        | Some p => call (PostLexProcess p toks)
        | None => Throw (AttributeError "process")
        end
    | None => Return toks
    end;
  do p <- self_lalr_parser;
  do l' <- self_contextual_lexer;
  call (LalrParse p (SeqStream toks') (Some l')).

(** *** class Nearley(WithLexer) *)

Definition Nearley__prepare_expansion (expansion : list string) : list PySym :=
  map (fun sym => if is_terminal sym then SymTuple [PStr sym; PNone] else SymStr sym)
      expansion.

Definition Nearley___init__ (lexer_conf : LexerConf) (parser_conf : ParserConf string) : Prog unit :=
  exec WithLexer___init__ lexer_conf;
  do rs <- for_each (fun '(n, x, a) =>
             let symbols := Nearley__prepare_expansion x in
             do f <- callback_getattr (callback parser_conf) a;
             Return {| nr_name := n; nr_symbols := symbols; nr_postprocess := f |})
           (rules parser_conf);
  do p <- call (NewNearleyParser rs (start parser_conf));
  setattr "parser" (VNearleyParser p).

Definition Nearley_parse (text : string) : Prog Tree :=
  do toks <- list_lex text;
  do p <- self_nearley_parser;
  do res <- call (NearleyParse p (InTokens toks));
  single_parse res.

(** *** class Earley(WithLexer) *)

Definition Earley__prepare_expansion (expansion : list string) : list PySym :=
  map (fun sym => if is_terminal sym then SymTuple [PStr sym] else SymStr sym)
      expansion.

Definition Earley___init__ (lexer_conf : LexerConf) (parser_conf : ParserConf string) : Prog unit :=
  exec WithLexer___init__ lexer_conf;
  let rs := map (fun '(n, x, a) => (n, Earley__prepare_expansion x, a)) (rules parser_conf) in
  do p <- call (NewEarleyParser
                  {| rules := rs; callback := callback parser_conf; start := start parser_conf |});
  setattr "parser" (VEarleyParser p).

Definition Earley_parse (text : string) : Prog Tree :=
  do toks <- list_lex text;
  do p <- self_earley_parser;
  do res <- call (EarleyParse p (InTokens toks));
  single_parse res.

(** *** The scannerless frontends *)

(** [{t.name: t for t in lexer_conf.tokens}]: a later definition of a name
    replaces an earlier one. *)
Definition token_by_name_of (toks : list TokenDef) : gmap string TokenDef :=
  foldl (fun m t => <[tokendef_name t := t]> m) ∅ toks.

(** The body of both [_prepare_expansion] generators for a terminal: the
    regular expression of the token, checked to have width (1, 1), then
    compiled. *)
Definition width_1_regexp (sym : string) : Prog (string * CompiledRe) :=
  do tbn <- self_token_by_name;
  match tbn !! sym with
  | None => Throw (KeyError sym)
  | Some t =>
      let regexp := to_regexp t in
      do width <- lift (sre_getwidth regexp);
      if decide (width = (1, 1))
      then do re <- lift (re_compile regexp); Return (regexp, re)
      else Throw (GrammarError regexp width)
  end.

(** *** class Nearley_NoLex *)

Definition Nearley_NoLex__prepare_expansion (expansion : list string) : Prog (list PySym) :=
  for_each (fun sym =>
    if is_terminal sym
    then do '(_, re) <- width_1_regexp sym; Return (SymTuple [PStr sym; PRegex re])
    else Return (SymStr sym)) expansion.

Definition Nearley_NoLex___init__
    (lexer_conf : LexerConf) (parser_conf : ParserConf string) : Prog unit :=
  exec setattr "token_by_name" (VTokenByName (token_by_name_of (tokens lexer_conf)));
  do rs <- for_each (fun '(n, x, a) =>
             do symbols <- Nearley_NoLex__prepare_expansion x;
             do f <- callback_getattr (callback parser_conf) a;
             Return {| nr_name := n; nr_symbols := symbols; nr_postprocess := f |})
           (rules parser_conf);
  do p <- call (NewNearleyParser rs (start parser_conf));
  setattr "parser" (VNearleyParser p).

Definition Nearley_NoLex_parse (text : string) : Prog Tree :=
  do p <- self_nearley_parser;
  do res <- call (NearleyParse p (InText text));
  single_parse res.

(** *** class Earley_NoLex *)

Definition Earley_NoLex__prepare_expansion (expansion : list string) : Prog (list PySym) :=
  for_each (fun sym =>
    if is_terminal sym
    then do '(_, re) <- width_1_regexp sym; Return (SymTuple [PMatch re])
    else Return (SymStr sym)) expansion.

Definition Earley_NoLex___init__
    (lexer_conf : LexerConf) (parser_conf : ParserConf string) : Prog unit :=
  exec setattr "token_by_name" (VTokenByName (token_by_name_of (tokens lexer_conf)));
  do rs <- for_each (fun '(n, x, a) =>
             do symbols <- Earley_NoLex__prepare_expansion x;
             Return (n, symbols, a))
           (rules parser_conf);
  do p <- call (NewEarleyParser
                  {| rules := rs; callback := callback parser_conf; start := start parser_conf |});
  setattr "parser" (VEarleyParser p).

Definition Earley_NoLex_parse (text : string) : Prog Tree :=
  do p <- self_earley_parser;
  do res <- call (EarleyParse p (InText text));
  single_parse res.

(** *** ENGINE_DICT *)

Inductive FrontendClass : Type :=
| LALR
| LALR_ContextualLexer
| Nearley
| Earley
| Nearley_NoLex
| Earley_NoLex.

Definition ENGINE_DICT : gmap string FrontendClass :=
  <["lalr_contextual_lexer" := LALR_ContextualLexer]>
  (<["earley_nolex" := Earley_NoLex]>
  (<["earley" := Earley]>
  (<["lalr" := LALR]> ∅))).

(** Calling a class: [__init__] on a fresh instance. *)
Definition class___init__ (cls : FrontendClass)
    (lexer_conf : LexerConf) (parser_conf : ParserConf string) : Prog unit :=
  match cls with
  | LALR => LALR___init__ lexer_conf parser_conf
  | LALR_ContextualLexer => LALR_ContextualLexer___init__ lexer_conf parser_conf
  | Nearley => Nearley___init__ lexer_conf parser_conf
  | Earley => Earley___init__ lexer_conf parser_conf
  | Nearley_NoLex => Nearley_NoLex___init__ lexer_conf parser_conf
  | Earley_NoLex => Earley_NoLex___init__ lexer_conf parser_conf
  end.

Definition class_parse (cls : FrontendClass) (text : string) : Prog Tree :=
  match cls with
  | LALR => LALR_parse text
  | LALR_ContextualLexer => LALR_ContextualLexer_parse text
  | Nearley => Nearley_parse text
  | Earley => Earley_parse text
  | Nearley_NoLex => Nearley_NoLex_parse text
  | Earley_NoLex => Earley_NoLex_parse text
  end.

(** Modelled from the spec: the frontend construction interface
    [construct(identifier, LexerConfig, ParserConfig)], which is not in
    this file of the repository: the identifier is looked up in the
    registry, an unrecognized one fails with a configuration error, a
    recognized one constructs the frontend registered under it. *)
Definition construct (identifier : string)
    (lexer_conf : LexerConf) (parser_conf : ParserConf string) : Prog unit :=
  match ENGINE_DICT !! identifier with
  | Some cls => class___init__ cls lexer_conf parser_conf
  | None => Throw (ConfigurationError identifier)
  end.

End Frontends.

(** ** Vocabulary of the statements

    Properties of programs and of runs, and the pure readings of the
    construction steps, in which the theorems below are stated. *)

Section Vocabulary.
Context `{C : Collaborators}.
Context {W : Type}.
Implicit Types (h : Handler W) (o : gmap string Value) (w : W).
Implicit Types (tbn : gmap string TokenDef) (cb : gmap string Callable).
Implicit Types (pc : ParserConf string).

(** A program that never assigns an attribute. *)
Inductive readonly {A} : Prog A -> Prop :=
| readonly_Return a : readonly (Return a)
| readonly_Throw e : readonly (Throw e)
| readonly_GetAttr n k : (forall v, readonly (k v)) -> readonly (GetAttr n k)
| readonly_Call c k : (forall x, readonly (k x)) -> readonly (Call c k).

(** A program all of whose calls satisfy [P]. *)
Inductive all_calls {A} (P : Cmd -> Prop) : Prog A -> Prop :=
| all_calls_Return a : all_calls P (Return a)
| all_calls_Throw e : all_calls P (Throw e)
| all_calls_GetAttr n k : (forall v, all_calls P (k v)) -> all_calls P (GetAttr n k)
| all_calls_SetAttr n v k : all_calls P k -> all_calls P (SetAttr n v k)
| all_calls_Call c k : P c -> (forall x, all_calls P (k x)) -> all_calls P (Call c k).

(** The collaborators answer the calls satisfying [P] by what they are asked
    alone: the answer does not depend on the state their objects are in. *)
Definition stateless_on (P : Cmd -> Prop) h : Prop :=
  forall c, P c -> forall w w', fst (h c w) = fst (h c w').

(** The calls [parse] may make: anything but a construction. *)
Definition parse_call (c : Cmd) : Prop := is_construction c = false.

(** The sequential map over a list of possibly failing steps. *)
Fixpoint mapR {A B} (f : A -> Result B) (l : list A) : Result (list B) :=
  match l with
  | [] => Ok []
  | x :: l' =>
      match f x with
      | Ok y => match mapR f l' with Ok ys => Ok (y :: ys) | Raise e => Raise e end
      | Raise e => Raise e
      end
  end.

(** A program that makes no call and assigns no attribute. *)
Definition quiet {A} (p : Prog A) : Prop :=
  readonly p /\ all_calls (fun _ => False) p.

(** The classes that inherit from [WithLexer]. *)
Definition with_lexer (cls : FrontendClass) : bool :=
  match cls with LALR | Nearley | Earley => true | _ => false end.

(** The chart-engine frontends. *)
Definition chart_engine (cls : FrontendClass) : bool :=
  match cls with Nearley | Earley | Nearley_NoLex | Earley_NoLex => true | _ => false end.

Definition scannerless (cls : FrontendClass) : bool :=
  match cls with Nearley_NoLex | Earley_NoLex => true | _ => false end.

(** One rule of [Nearley.__init__]'s comprehension, without effects. *)
Definition Nearley_rule (cb : gmap string Callable) (r : string * list string * string)
    : Result NearleyRule :=
  let '(n, x, a) := r in
  match cb !! a with
  | Some f => Ok {| nr_name := n; nr_symbols := Nearley__prepare_expansion x;
                    nr_postprocess := f |}
  | None => Raise (AttributeError a)
  end.

(** What the width check makes of a terminal, given the token table. *)
Definition width_checked tbn (sym : string) : Result (string * CompiledRe) :=
  match tbn !! sym with
  | None => Raise (KeyError sym)
  | Some t =>
      match sre_getwidth (to_regexp t) with
      | Ok width =>
          if decide (width = (1, 1))
          then match re_compile (to_regexp t) with
               | Ok re => Ok (to_regexp t, re)
               | Raise e => Raise e
               end
          else Raise (GrammarError (to_regexp t) width)
      | Raise e => Raise e
      end
  end.

Definition Earley_NoLex_symbol tbn (sym : string) : Result PySym :=
  if is_terminal sym
  then match width_checked tbn sym with
       | Ok (_, re) => Ok (SymTuple [PMatch re])
       | Raise e => Raise e
       end
  else Ok (SymStr sym).

Definition Nearley_NoLex_symbol tbn (sym : string) : Result PySym :=
  if is_terminal sym
  then match width_checked tbn sym with
       | Ok (_, re) => Ok (SymTuple [PStr sym; PRegex re])
       | Raise e => Raise e
       end
  else Ok (SymStr sym).

Definition Earley_NoLex_rule tbn (r : string * list string * string)
    : Result (string * list PySym * string) :=
  let '(n, x, a) := r in
  match mapR (Earley_NoLex_symbol tbn) x with
  | Ok symbols => Ok (n, symbols, a)
  | Raise e => Raise e
  end.

Definition Nearley_NoLex_rule tbn cb (r : string * list string * string)
    : Result NearleyRule :=
  let '(n, x, a) := r in
  match mapR (Nearley_NoLex_symbol tbn) x with
  | Ok symbols =>
      match cb !! a with
      | Some f => Ok {| nr_name := n; nr_symbols := symbols; nr_postprocess := f |}
      | None => Raise (AttributeError a)
      end
  | Raise e => Raise e
  end.

(** [sym] occurs in the right-hand side of a rule. *)
Definition occurs pc (sym : string) : Prop :=
  exists n x a, In (n, x, a) (rules pc) /\ In sym x.

(** [sym] is a terminal whose pattern does not have width (1, 1). *)
Definition bad_width tbn (sym : string) : Prop :=
  is_terminal sym = true /\
  exists t width,
    tbn !! sym = Some t /\ sre_getwidth (to_regexp t) = Ok width /\ width <> (1, 1).

(** Every terminal of the rules has a token definition whose regular
    expression parses and compiles. *)
Definition terminals_resolve tbn pc : Prop :=
  forall sym, occurs pc sym -> is_terminal sym = true ->
    exists t width re,
      tbn !! sym = Some t /\ sre_getwidth (to_regexp t) = Ok width /\
      re_compile (to_regexp t) = Ok re.

(** Every action named by a rule is an attribute of the callback. *)
Definition actions_resolve pc : Prop :=
  forall n x a, In (n, x, a) (rules pc) -> is_Some (callback pc !! a).

(** Construction stopped on a grammar error before any engine was built. *)
Definition width_check_fails (r : Outcome W unit) : Prop :=
  is_GrammarError (result r) = true /\ trace r = [].

(** A rule one of whose symbols has a bad width. *)
Definition bad_rule tbn (r : string * list string * string) : Prop :=
  exists sym, In sym (snd (fst r)) /\ bad_width tbn sym.

End Vocabulary.

(** What [parse] makes of the derivations [res] returned by the engine. *)
Definition one_or_fail `{C : Collaborators} (res : list Tree) (r : Result Tree) : Prop :=
  (length res <> 1%nat -> r = Raise Ambiguous) /\ (forall t, res = [t] -> r = Ok t).

(** The engine call a chart-engine frontend makes on [text], given its
    engine attribute, and the state it makes it in. *)
Definition engine_call `{C : Collaborators} {W : Type} (h : Handler W)
    (cls : FrontendClass) (o : gmap string Value) (w : W) (text : string)
    : option (Result (list Tree) * W) :=
  match cls, o !! "parser" with
  | Earley_NoLex, Some (VEarleyParser p) => Some (h (EarleyParse p (InText text)) w)
  | Nearley_NoLex, Some (VNearleyParser p) => Some (h (NearleyParse p (InText text)) w)
  | Earley, Some (VEarleyParser p) =>
      let r := run h (list_lex text) o w in
      match result r with
      | Ok toks => Some (h (EarleyParse p (InTokens toks)) (world r))
      | Raise _ => None
      end
  | Nearley, Some (VNearleyParser p) =>
      let r := run h (list_lex text) o w in
      match result r with
      | Ok toks => Some (h (NearleyParse p (InTokens toks)) (world r))
      | Raise _ => None
      end
  | _, _ => None
  end.

Definition registered : list (string * FrontendClass) :=
  [("lalr", LALR); ("earley", Earley); ("earley_nolex", Earley_NoLex);
   ("lalr_contextual_lexer", LALR_ContextualLexer)].

(** The symbol name a translated symbol stands for. *)
Definition symbol_name `{C : Collaborators} (s : PySym) : option string :=
  match s with
  | SymStr name => Some name
  | SymTuple (PStr name :: _) => Some name
  | SymTuple _ => None
  end.

(** The call hands the raw [text] to a chart engine. *)
Definition raw_text_call `{C : Collaborators} (text : string) (c : Cmd) : Prop :=
  match c with
  | EarleyParse _ (InText t) | NearleyParse _ (InText t) => t = text
  | _ => False
  end.

(** The call constructs a chart engine. *)
Definition engine_construction `{C : Collaborators} (c : Cmd) : Prop :=
  match c with
  | NewEarleyParser _ | NewNearleyParser _ _ => True
  | _ => False
  end.

(** The engine is given the rules' action identifiers as they are, and the
    callback object itself. *)
Definition passes_actions `{C : Collaborators} (pc : ParserConf string) (c : Cmd) : Prop :=
  match c with
  | NewEarleyParser conf =>
      map snd (rules conf) = map snd (rules pc) /\ callback conf = callback pc
  | _ => True
  end.

(** ** A small concrete setting

    Collaborators simple enough to run: token definitions are
    [(name, regexp)] pairs, regular expressions are literal characters each
    optionally followed by a star, a lexer cuts the text into characters,
    and a chart engine answers with zero, one or two derivations depending
    on its input. *)

Module Toy.

Definition MAXREPEAT : Z := 4294967295.

Fixpoint width (r : string) : Z * Z :=
  match r with
  | EmptyString => (0, 0)
  | String _ (String "*"%char r') => let '(lo, _) := width r' in (lo, MAXREPEAT)
  | String _ r' => let '(lo, hi) := width r' in (1 + lo, Z.min MAXREPEAT (1 + hi))
  end.

Definition upper (s : string) : bool :=
  match s with
  | String c _ =>
      let n := Z.of_N (Ascii.N_of_ascii c) in ((65 <=? n)%Z && (n <=? 90)%Z)%bool
  | EmptyString => false
  end.

Fixpoint chars (s : string) : list string :=
  match s with
  | EmptyString => []
  | String c s' => String c EmptyString :: chars s'
  end.

Definition table : gmap nat (gmap string nat) :=
  <[1%nat := <["B" := 2%nat]> (<["A" := 1%nat]> ∅)]> (<[0%nat := <["A" := 0%nat]> ∅]> ∅).

Definition collaborators : Collaborators := {|
  TokenDef := string * string;
  PostLex := list string;
  Callable := nat;
  Token := string;
  Stream := list string;
  Tree := list string;
  Lexer := list string;
  ContextualLexer := nat;
  LalrParser := string;
  EarleyParser := string;
  NearleyParser := string;
  Action := nat;
  CompiledRe := string;
  tokendef_name := fst;
  to_regexp := snd;
  is_terminal := upper;
  sre_getwidth := fun r => Ok (width r);
  re_compile := fun r => Ok r;
  always_accept := fun p => p;
  states_idx := fun _ => table
|}.

(** The derivations of the grammar [A -> B | C], [B -> 'x'], [C -> 'x'],
    and of an unambiguous one on every other non-empty input. *)
Definition derivations (input : list string) : list (list string) :=
  match input with
  | [] => []
  | ["x"] => [["B"; "x"]; ["C"; "x"]]
  | _ => [input]
  end.

Definition chart (input : @ChartInput collaborators) : list (list string) :=
  match input with
  | InTokens l => derivations l
  | InText text => derivations (chars text)
  end.

Definition seq_tokens (s : @TokenSeq collaborators) : list string :=
  match s with SeqList l => l | SeqStream l => l end.

(** The state counts the calls answered. *)
Definition handler : @Handler collaborators nat :=
  fun c n =>
    (match c return Result (@Answer collaborators c) with
     | NewLexer toks _ => Ok (map fst toks)
     | NewContextualLexer _ d _ _ => Ok (size d)
     | NewLalrParser pc => Ok (start pc)
     | NewEarleyParser pc => Ok (start pc)
     | NewNearleyParser _ st => Ok st
     | LexerLex _ text => Ok (chars text)
     | ContextualLexerLex _ text => Ok (chars text)
     | PostLexProcess _ s => Ok s
     | ListOf s => Ok s
     | LalrParse _ s _ => Ok (seq_tokens s)
     | EarleyParse _ input => Ok (chart input)
     | NearleyParse _ input => Ok (chart input)
     end, S n).

Definition lexer_conf : @LexerConf collaborators :=
  @Build_LexerConf collaborators [("A", "a"); ("B", "b")] ["WS"] None.

Definition lexer_conf_postlex : @LexerConf collaborators :=
  @Build_LexerConf collaborators [("A", "a"); ("B", "b")] [] (Some ["NL"]).

Definition parser_conf : @ParserConf collaborators string :=
  @Build_ParserConf collaborators string
    [("start", ["A"; "b"], "f"); ("b", ["B"], "g")]
    (<["g" := 1%nat]> (<["f" := 0%nat]> (∅ : gmap string nat)))
    "start".

(** Running a constructor on a fresh instance, then [parse]. *)
Definition fresh (cls : FrontendClass) (lc : @LexerConf collaborators)
    (pc : @ParserConf collaborators string) : @Outcome collaborators nat unit :=
  run handler (class___init__ cls lc pc) ∅ 0%nat.

Definition parse_on (cls : FrontendClass) (r : @Outcome collaborators nat unit) (text : string)
    : @Outcome collaborators nat (list string) :=
  run handler (class_parse cls text) (obj r) (world r).

End Toy.

Module ToyScannerless.

Definition wide : @LexerConf Toy.collaborators :=
  @Build_LexerConf Toy.collaborators [("A", "a"); ("B", "bb")] [] None.

Definition one_token (regexp : string) : @LexerConf Toy.collaborators :=
  @Build_LexerConf Toy.collaborators [("B", regexp)] [] None.

Definition one_rule : @ParserConf Toy.collaborators string :=
  @Build_ParserConf Toy.collaborators string
    [("start", ["B"], "f")] (<["f" := 0%nat]> (∅ : gmap string nat)) "start".

(** The terminal [A] has no token definition; [B] has width (2, 2). *)
Definition undefined_terminal : @LexerConf Toy.collaborators :=
  @Build_LexerConf Toy.collaborators [("B", "bb")] [] None.

Definition two_terminals : @ParserConf Toy.collaborators string :=
  @Build_ParserConf Toy.collaborators string
    [("start", ["A"; "B"], "f")] (<["f" := 0%nat]> (∅ : gmap string nat)) "start".

(** The first rule names an action the callback lacks; the second has the
    terminal [B] of width (2, 2). *)
Definition missing_action : @ParserConf Toy.collaborators string :=
  @Build_ParserConf Toy.collaborators string
    [("start", ["A"], "missing"); ("b", ["B"], "g")]
    (<["g" := 1%nat]> (∅ : gmap string nat)) "start".

End ToyScannerless.

(** Collaborators as in [Toy], except for the post-lex transform, which is
    stateful: the state counts the calls of [process], and from its second
    call on [process] answers with the stream reversed. *)
Module ToyLeaky.

Definition handler : @Handler Toy.collaborators nat :=
  fun c n =>
    match c return Result (@Answer Toy.collaborators c) * nat with
    | PostLexProcess _ s => (Ok (match n with O => s | S _ => rev s end), S n)
    | c' => (fst (Toy.handler c' n), n)
    end.

End ToyLeaky.

(** ** General facts about programs and their runs *)

Section ProgramFacts.
Context `{C : Collaborators}.
Context {W : Type}.
Implicit Types (h : Handler W) (o : gmap string Value) (w : W).

Lemma run_bind {A B} h (m : Prog A) (f : A -> Prog B) o w :
  run h (bind m f) o w = after (run h m o w) (fun a o' w' => run h (f a) o' w').
Proof.
  revert o w; induction m as [a|e|n k IH|n v k IH|c k IH]; intros o w; simpl.
  - unfold after; simpl. by destruct (run h (f a) o w).
  - done.
  - destruct (o !! n); [apply IH | done].
  - apply IH.
  - destruct (h c w) as [[x|e] w']; [|done].
    rewrite IH. unfold after, logged; simpl.
    by destruct (result (run h (k x) o w')).
Qed.

Lemma after_ext {A B} (r : Outcome W A) (k k' : A -> gmap string Value -> W -> Outcome W B) :
  (forall a o w, k a o w = k' a o w) -> after r k = after r k'.
Proof. intros Hk. unfold after. destruct (result r); [|done]. by rewrite Hk. Qed.

Lemma readonly_bind {A B} (m : Prog A) (f : A -> Prog B) :
  readonly m -> (forall a, readonly (f a)) -> readonly (bind m f).
Proof. induction 1; simpl; intros Hf; auto; constructor; auto. Qed.

Lemma all_calls_bind {A B} P (m : Prog A) (f : A -> Prog B) :
  all_calls P m -> (forall a, all_calls P (f a)) -> all_calls P (bind m f).
Proof. induction 1; simpl; intros Hf; auto; constructor; auto. Qed.

Lemma readonly_obj {A} h (p : Prog A) o w :
  readonly p -> obj (run h p o w) = o.
Proof.
  intros Hp; revert w; induction Hp as [a|e|n k _ IH|c k _ IH]; intros w; simpl; try done.
  - destruct (o !! n); [apply IH | done].
  - destruct (h c w) as [[x|e] w']; [|done]. simpl. apply IH.
Qed.

Lemma all_calls_trace {A} P h (p : Prog A) o w :
  all_calls P p -> Forall P (trace (run h p o w)).
Proof.
  intros Hp; revert o w.
  induction Hp as [a|e|n k _ IH|n v k _ IH|c k Hc _ IH]; intros o w; simpl; auto.
  - destruct (o !! n); [apply IH | constructor].
  - destruct (h c w) as [[x|e] w']; simpl; repeat constructor; auto.
Qed.

(** When the calls a program makes are answered statelessly, the result
    and the calls of a run depend on the program and the attributes only. *)
Lemma stateless_on_run {A} (P : Cmd -> Prop) h (p : Prog A) o w w' :
  stateless_on P h -> all_calls P p ->
  result (run h p o w) = result (run h p o w') /\
  obj (run h p o w) = obj (run h p o w') /\
  trace (run h p o w) = trace (run h p o w').
Proof.
  intros Hh Hp; revert o w w'.
  induction Hp as [a|e|n k _ IH|n v k _ IH|c k Hc _ IH]; intros o w w'; simpl; try done.
  - destruct (o !! n); [apply IH | done].
  - specialize (Hh c Hc w w').
    destruct (h c w) as [r1 w1], (h c w') as [r2 w2]; simpl in Hh; subst r2.
    destruct r1 as [x|e]; [|done]. simpl.
    destruct (IH x o w1 w2) as (-> & -> & ->). done.
Qed.

(** Running twice in a row a program that assigns no attribute and whose
    calls are answered statelessly gives the same result through the same
    calls. *)
Lemma readonly_twice {A} (P : Cmd -> Prop) h (p : Prog A) o w :
  stateless_on P h -> all_calls P p -> readonly p ->
  let r1 := run h p o w in
  let r2 := run h p (obj r1) (world r1) in
  result r2 = result r1 /\ trace r2 = trace r1 /\ obj r2 = o.
Proof.
  intros Hh Hc Hp r1 r2. subst r2 r1.
  rewrite (readonly_obj h p o w Hp).
  destruct (stateless_on_run P h p o (world (run h p o w)) w Hh Hc) as (Hr & _ & Ht).
  split; [done|]. split; [done|]. by apply readonly_obj.
Qed.

Lemma quiet_run {A} h (p : Prog A) o w :
  quiet p ->
  run h p o w = {| result := result (run h p o w); obj := o; world := w; trace := [] |}.
Proof.
  intros [Hr Hc]; revert w.
  induction Hr as [a|e|n k _ IH|c k _ IH]; intros w; simpl; try done.
  - inversion Hc; simplify_eq. destruct (o !! n); [|done].
    match goal with H : forall v, all_calls _ (_ v) |- _ => apply IH, H end.
  - inversion Hc; simplify_eq. done.
Qed.

Lemma quiet_bind {A B} (m : Prog A) (f : A -> Prog B) :
  quiet m -> (forall a, quiet (f a)) -> quiet (bind m f).
Proof.
  intros [Hr Hc] Hf; split.
  - apply readonly_bind; [done | intros a; apply Hf].
  - apply all_calls_bind; [done | intros a; apply Hf].
Qed.

Lemma for_each_quiet {A B} (f : A -> Prog B) (l : list A) :
  (forall x, quiet (f x)) -> quiet (for_each f l).
Proof.
  intros Hf; induction l as [|x l IH]; simpl.
  - split; constructor.
  - apply quiet_bind; [apply Hf | intros y].
    apply quiet_bind; [apply IH | intros ys]. split; constructor.
Qed.

Lemma for_each_quiet_result {A B} h (f : A -> Prog B) (l : list A) o w :
  (forall x, quiet (f x)) ->
  result (run h (for_each f l) o w) = mapR (fun x => result (run h (f x) o w)) l.
Proof.
  intros Hf; induction l as [|x l IH]; simpl; [done|].
  rewrite run_bind, (quiet_run h (f x) o w (Hf x)). unfold after; simpl.
  destruct (result (run h (f x) o w)) as [y|e]; [|done]. simpl.
  rewrite run_bind, (quiet_run h (for_each f l) o w (for_each_quiet f l Hf)).
  unfold after; simpl. rewrite IH.
  by destruct (mapR _ l).
Qed.

End ProgramFacts.

(** Walks through a program written out as a tree of constructors. *)
Ltac prog_tree :=
  repeat first
    [ progress simpl
    | constructor
    | intros ?
    | match goal with |- context [match ?x with _ => _ end] => destruct x end ].

(** ** Facts shared by the frontends *)

Section FrontendFacts.
Context `{C : Collaborators}.
Context {W : Type}.
Implicit Types (h : Handler W) (o : gmap string Value) (w : W).

Lemma WithLexer___init___run h lexer_conf o w :
  run h (WithLexer___init__ lexer_conf) o w =
  match h (NewLexer (tokens lexer_conf) (ignore lexer_conf)) w with
  | (Ok l, w') =>
      {| result := Ok tt;
         obj := <["lexer" := VLexer l]> (<["lexer_conf" := VLexerConf lexer_conf]> o);
         world := w';
         trace := [NewLexer (tokens lexer_conf) (ignore lexer_conf)] |}
  | (Raise e, w') =>
      {| result := Raise e;
         obj := <["lexer_conf" := VLexerConf lexer_conf]> o;
         world := w';
         trace := [NewLexer (tokens lexer_conf) (ignore lexer_conf)] |}
  end.
Proof.
  unfold WithLexer___init__; simpl.
  by destruct (h _ w) as [[l|e] w'].
Qed.

Lemma WithLexer_lex_run h o w l lc text :
  o !! "lexer" = Some (VLexer l) ->
  o !! "lexer_conf" = Some (VLexerConf lc) ->
  run h (WithLexer_lex text) o w =
  match h (LexerLex l text) w with
  | (Ok stream, w1) =>
      match postlex lc with
      | Some p =>
          match h (PostLexProcess p stream) w1 with
          | (r, w2) =>
              {| result := r; obj := o; world := w2;
                 trace := [LexerLex l text; PostLexProcess p stream] |}
          end
      | None => {| result := Ok stream; obj := o; world := w1; trace := [LexerLex l text] |}
      end
  | (Raise e, w1) => {| result := Raise e; obj := o; world := w1; trace := [LexerLex l text] |}
  end.
Proof.
  intros Hl Hlc. unfold WithLexer_lex; simpl. rewrite Hl; simpl.
  destruct (h _ w) as [[stream|e] w1]; [|done]. simpl. rewrite Hlc; simpl.
  destruct (postlex lc) as [p|] eqn:Hp; simpl; [|done].
  rewrite Hlc; simpl. rewrite Hp; simpl.
  by destruct (h _ w1) as [[s|e] w2].
Qed.

Lemma single_parse_run h res o w :
  run h (single_parse res) o w =
  {| result := match res with [t] => Ok t | _ => Raise Ambiguous end;
     obj := o; world := w; trace := [] |}.
Proof.
  unfold single_parse. destruct res as [|t [|t' res]]; simpl; try done.
Qed.

Lemma list_lex_run h o w text :
  run h (list_lex text) o w =
  after (run h (WithLexer_lex text) o w)
        (fun stream o' w' => run h (call (ListOf stream)) o' w').
Proof.
  exact (run_bind h (WithLexer_lex text)
           (fun stream => call (ListOf stream) : Prog (list Token)) o w).
Qed.

Lemma class_parse_readonly cls text : readonly (class_parse cls text).
Proof.
  destruct cls; simpl;
    unfold LALR_parse, LALR_ContextualLexer_parse, Nearley_parse, Earley_parse,
      Nearley_NoLex_parse, Earley_NoLex_parse, list_lex, WithLexer_lex, single_parse;
    prog_tree.
Qed.

(** No [parse] method constructs a lexer or an engine. *)
Lemma class_parse_constructs_nothing cls text :
  all_calls (fun c => is_construction c = false) (class_parse cls text).
Proof.
  destruct cls; simpl;
    unfold LALR_parse, LALR_ContextualLexer_parse, Nearley_parse, Earley_parse,
      Nearley_NoLex_parse, Earley_NoLex_parse, list_lex, WithLexer_lex, single_parse;
    prog_tree.
Qed.

End FrontendFacts.

(** ** Parsing leaves the instance alone *)

(** C8: for every frontend class, whatever the collaborators answer and
    whether [parse] returns a tree or raises, the attribute dictionary of
    the instance after [parse] is the one before it; in particular the
    lexer configuration and the parser configuration it holds are the
    same. *)
Theorem parse_leaves_configuration `{C : Collaborators} {W : Type}
    (h : Handler W) (cls : FrontendClass) (o : gmap string Value) (w : W) (text : string) :
  let r := run h (class_parse cls text) o w in
  obj r = o /\
  obj r !! "lexer_conf" = o !! "lexer_conf" /\
  obj r !! "parser_conf" = o !! "parser_conf".
Proof.
  intros r. subst r.
  rewrite (readonly_obj h _ o w (class_parse_readonly cls text)).
  auto.
Qed.

(** C7, as the code has it: for every frontend class, every instance
    state and every text, provided the lexer, the post-lex transform and
    the engine answer the calls that [parse] makes by what they are asked
    alone (no state of theirs carries over from one call to the next),
    calling [parse] a second time with the same text gives the result of
    the first call, a tree or an exception, through the same calls, and
    leaves the instance as it was.  Nothing is asked of the constructors,
    which [parse] never calls. *)
Theorem parse_twice_same_result `{C : Collaborators} {W : Type}
    (h : Handler W) (cls : FrontendClass) (o : gmap string Value) (w : W) (text : string) :
  stateless_on parse_call h ->
  let r1 := run h (class_parse cls text) o w in
  let r2 := run h (class_parse cls text) (obj r1) (world r1) in
  result r2 = result r1 /\ trace r2 = trace r1 /\ obj r2 = o.
Proof.
  intros Hh r1 r2.
  apply (readonly_twice parse_call h (class_parse cls text) o w Hh
           (class_parse_constructs_nothing cls text) (class_parse_readonly cls text)).
Qed.

Lemma parse_twice_same_result_witness :
  let r1 := Toy.parse_on LALR (Toy.fresh LALR Toy.lexer_conf Toy.parser_conf) "ab" in
  result r1 = Ok ["a"; "b"] /\
  result (run Toy.handler (class_parse LALR "ab") (obj r1) (world r1)) = result r1 /\
  trace (run Toy.handler (class_parse LALR "ab") (obj r1) (world r1)) = trace r1 /\
  obj (run Toy.handler (class_parse LALR "ab") (obj r1) (world r1))
    = obj (Toy.fresh LALR Toy.lexer_conf Toy.parser_conf).
Proof.
  split; [reflexivity|].
  apply (parse_twice_same_result Toy.handler LALR
           (obj (Toy.fresh LALR Toy.lexer_conf Toy.parser_conf))
           (world (Toy.fresh LALR Toy.lexer_conf Toy.parser_conf)) "ab").
  intros c _ n n'. reflexivity.
Defined.

(** C7 as stated fails: with a post-lex transform that keeps a count of its
    calls and reverses the stream from its second call on, a constructed
    LALR frontend parses the same text into two different trees. *)
Lemma parse_twice_differs_with_stateful_postlex :
  let r0 := run ToyLeaky.handler
              (@class___init__ Toy.collaborators LALR Toy.lexer_conf_postlex Toy.parser_conf)
              ∅ 0%nat in
  let r1 := run ToyLeaky.handler (@class_parse Toy.collaborators LALR "ab")
              (obj r0) (world r0) in
  let r2 := run ToyLeaky.handler (@class_parse Toy.collaborators LALR "ab")
              (obj r1) (world r1) in
  result r0 = Ok tt /\ result r1 = Ok ["a"; "b"] /\ result r2 = Ok ["b"; "a"].
Proof. vm_compute. repeat split. Qed.

(** ** The ambiguity policy of the chart-engine frontends *)

Lemma one_or_fail_single_parse `{C : Collaborators} (res : list Tree) :
  one_or_fail res (match res with [t] => Ok t | _ => Raise Ambiguous end).
Proof.
  destruct res as [|t [|t' res]]; split; simpl; try done.
  - intros t0 [= ->]. done.
Qed.

Section ChartParse.
Context `{C : Collaborators}.
Context {W : Type}.
Implicit Types (h : Handler W) (o : gmap string Value) (w : W).

Lemma Earley_NoLex_parse_run h o w text p res w' :
  o !! "parser" = Some (VEarleyParser p) ->
  h (EarleyParse p (InText text)) w = (Ok res, w') ->
  one_or_fail res (result (run h (Earley_NoLex_parse text) o w)).
Proof.
  intros Hp Hcall. unfold Earley_NoLex_parse; simpl. rewrite Hp; simpl. rewrite Hcall; simpl.
  rewrite single_parse_run; simpl. apply one_or_fail_single_parse.
Qed.

Lemma Nearley_NoLex_parse_run h o w text p res w' :
  o !! "parser" = Some (VNearleyParser p) ->
  h (NearleyParse p (InText text)) w = (Ok res, w') ->
  one_or_fail res (result (run h (Nearley_NoLex_parse text) o w)).
Proof.
  intros Hp Hcall. unfold Nearley_NoLex_parse; simpl. rewrite Hp; simpl. rewrite Hcall; simpl.
  rewrite single_parse_run; simpl. apply one_or_fail_single_parse.
Qed.

Lemma list_lex_obj h o w text : obj (run h (list_lex text) o w) = o.
Proof. apply readonly_obj. unfold list_lex, WithLexer_lex. prog_tree. Qed.

Lemma Earley_parse_run h o w text p toks res w' :
  o !! "parser" = Some (VEarleyParser p) ->
  result (run h (list_lex text) o w) = Ok toks ->
  h (EarleyParse p (InTokens toks)) (world (run h (list_lex text) o w)) = (Ok res, w') ->
  one_or_fail res (result (run h (Earley_parse text) o w)).
Proof.
  intros Hp Hlex Hcall. pose proof (list_lex_obj h o w text) as Ho.
  unfold Earley_parse. rewrite run_bind. unfold after.
  destruct (run h (list_lex text) o w) as [rr oo ww tr]; simpl in *; subst.
  rewrite Hp; simpl. rewrite Hcall; simpl.
  rewrite single_parse_run; simpl. apply one_or_fail_single_parse.
Qed.

Lemma Nearley_parse_run h o w text p toks res w' :
  o !! "parser" = Some (VNearleyParser p) ->
  result (run h (list_lex text) o w) = Ok toks ->
  h (NearleyParse p (InTokens toks)) (world (run h (list_lex text) o w)) = (Ok res, w') ->
  one_or_fail res (result (run h (Nearley_parse text) o w)).
Proof.
  intros Hp Hlex Hcall. pose proof (list_lex_obj h o w text) as Ho.
  unfold Nearley_parse. rewrite run_bind. unfold after.
  destruct (run h (list_lex text) o w) as [rr oo ww tr]; simpl in *; subst.
  rewrite Hp; simpl. rewrite Hcall; simpl.
  rewrite single_parse_run; simpl. apply one_or_fail_single_parse.
Qed.

End ChartParse.

(** C2: for each of the four chart-engine frontends (lexed and
    scannerless, Earley and Nearley), whenever the engine call made by
    [parse] returns the derivations [res], [parse] raises the assertion
    failure if [res] has zero or more than one element, and returns the
    tree if [res] holds exactly one. *)
Theorem chart_parse_exactly_one `{C : Collaborators} {W : Type}
    (h : Handler W) (cls : FrontendClass) (o : gmap string Value) (w w' : W)
    (text : string) (res : list Tree) :
  chart_engine cls = true ->
  engine_call h cls o w text = Some (Ok res, w') ->
  let r := result (run h (class_parse cls text) o w) in
  (length res <> 1%nat -> r = Raise Ambiguous) /\ (forall t, res = [t] -> r = Ok t).
Proof.
  intros Hcls Hcall r. subst r. unfold engine_call in Hcall.
  destruct cls; try discriminate Hcls; unfold class_parse;
    destruct (o !! "parser") as [[]|] eqn:Hp; try discriminate Hcall.
  - destruct (result (run h (list_lex text) o w)) as [toks|e] eqn:Hlex; [|discriminate].
    injection Hcall as Hcall. by eapply Nearley_parse_run.
  - destruct (result (run h (list_lex text) o w)) as [toks|e] eqn:Hlex; [|discriminate].
    injection Hcall as Hcall. by eapply Earley_parse_run.
  - injection Hcall as Hcall. by eapply Nearley_NoLex_parse_run.
  - injection Hcall as Hcall. by eapply Earley_NoLex_parse_run.
Qed.

Lemma chart_parse_exactly_one_witness :
  let r := Toy.fresh Earley_NoLex Toy.lexer_conf Toy.parser_conf in
  let r' := Toy.fresh Nearley Toy.lexer_conf Toy.parser_conf in
  result (Toy.parse_on Earley_NoLex r "x") = Raise Ambiguous /\
  result (Toy.parse_on Earley_NoLex r "") = Raise Ambiguous /\
  result (Toy.parse_on Earley_NoLex r "ab") = Ok ["a"; "b"] /\
  result (Toy.parse_on Nearley r' "x") = Raise Ambiguous.
Proof.
  pose (r := Toy.fresh Earley_NoLex Toy.lexer_conf Toy.parser_conf).
  pose (r' := Toy.fresh Nearley Toy.lexer_conf Toy.parser_conf).
  split; [|split; [|split]]; cycle 3.
  - apply (proj1 (@chart_parse_exactly_one Toy.collaborators nat Toy.handler Nearley
             (obj r') (world r') 5%nat "x" [["B"; "x"]; ["C"; "x"]] eq_refl eq_refl)).
    simpl. lia.
  - apply (proj1 (@chart_parse_exactly_one Toy.collaborators nat Toy.handler Earley_NoLex
             (obj r) (world r) 2%nat "x" [["B"; "x"]; ["C"; "x"]] eq_refl eq_refl)).
    simpl. lia.
  - apply (proj1 (@chart_parse_exactly_one Toy.collaborators nat Toy.handler Earley_NoLex
             (obj r) (world r) 2%nat "" [] eq_refl eq_refl)).
    simpl. lia.
  - apply (proj2 (@chart_parse_exactly_one Toy.collaborators nat Toy.handler Earley_NoLex
             (obj r) (world r) 2%nat "ab" [["a"; "b"]] eq_refl eq_refl)).
    reflexivity.
Defined.

(** ** Construction *)

Section Construction.
Context `{C : Collaborators}.
Context {W : Type}.
Implicit Types (h : Handler W) (o : gmap string Value) (w : W).

Lemma callback_getattr_quiet cb a : quiet (callback_getattr cb a).
Proof. unfold callback_getattr. destruct (cb !! a); split; constructor. Qed.

Lemma mapR_ext {A B} (f g : A -> Result B) l :
  (forall x, f x = g x) -> mapR f l = mapR g l.
Proof. intros Hfg; induction l as [|x l IH]; simpl; [done|]. by rewrite Hfg, IH. Qed.

Lemma mapR_In_Raise {A B} (f : A -> Result B) l x :
  In x l -> is_Ok (f x) = false -> is_Ok (mapR f l) = false.
Proof.
  induction l as [|y l IH]; simpl; [done|].
  intros [->|Hin] Hx.
  - by destruct (f x).
  - destruct (f y); [|done]. specialize (IH Hin Hx). by destruct (mapR f l).
Qed.

Lemma Nearley_rules_run h cb rs o w :
  run h (for_each (fun '(n, x, a) =>
           let symbols := Nearley__prepare_expansion x in
           do f <- callback_getattr cb a;
           Return {| nr_name := n; nr_symbols := symbols; nr_postprocess := f |}) rs) o w =
  {| result := mapR (Nearley_rule cb) rs; obj := o; world := w; trace := [] |}.
Proof.
  set (f := fun '(n, x, a) => _).
  assert (forall r, quiet (f r)) as Hq.
  { intros [[n x] a]. unfold f. apply quiet_bind; [apply callback_getattr_quiet|].
    intros g. split; constructor. }
  rewrite (quiet_run h _ o w (for_each_quiet f rs Hq)). f_equal.
  rewrite (for_each_quiet_result h f rs o w Hq). apply mapR_ext.
  intros [[n x] a]. unfold f, Nearley_rule, callback_getattr; simpl.
  by destruct (cb !! a).
Qed.

Lemma LALR___init___run h lc pc o w :
  run h (LALR___init__ lc pc) o w =
  after (run h (WithLexer___init__ lc) o w) (fun _ o1 w1 =>
    match h (NewLalrParser pc) w1 with
    | (Ok p, w2) =>
        {| result := Ok tt;
           obj := <["parser" := VLalrParser p]> (<["parser_conf" := VParserConf pc]> o1);
           world := w2; trace := [NewLalrParser pc] |}
    | (Raise e, w2) =>
        {| result := Raise e; obj := <["parser_conf" := VParserConf pc]> o1;
           world := w2; trace := [NewLalrParser pc] |}
    end).
Proof. unfold LALR___init__. rewrite run_bind. reflexivity. Qed.

Lemma Nearley___init___run h lc pc o w :
  run h (Nearley___init__ lc pc) o w =
  after (run h (WithLexer___init__ lc) o w) (fun _ o1 w1 =>
    match mapR (Nearley_rule (callback pc)) (rules pc) with
    | Ok rs =>
        match h (NewNearleyParser rs (start pc)) w1 with
        | (Ok p, w2) =>
            {| result := Ok tt; obj := <["parser" := VNearleyParser p]> o1;
               world := w2; trace := [NewNearleyParser rs (start pc)] |}
        | (Raise e, w2) =>
            {| result := Raise e; obj := o1; world := w2;
               trace := [NewNearleyParser rs (start pc)] |}
        end
    | Raise e => {| result := Raise e; obj := o1; world := w1; trace := [] |}
    end).
Proof.
  unfold Nearley___init__. rewrite run_bind. apply after_ext; intros [] o1 w1.
  rewrite run_bind, Nearley_rules_run. unfold after; simpl.
  destruct (mapR _ _) as [rs|e]; [|done]. simpl.
  by destruct (h _ w1) as [[p|e] w2].
Qed.

Lemma Earley___init___run h lc pc o w :
  run h (Earley___init__ lc pc) o w =
  after (run h (WithLexer___init__ lc) o w) (fun _ o1 w1 =>
    let conf :=
      {| rules := map (fun '(n, x, a) => (n, Earley__prepare_expansion x, a)) (rules pc);
         callback := callback pc; start := start pc |} in
    match h (NewEarleyParser conf) w1 with
    | (Ok p, w2) =>
        {| result := Ok tt; obj := <["parser" := VEarleyParser p]> o1;
           world := w2; trace := [NewEarleyParser conf] |}
    | (Raise e, w2) =>
        {| result := Raise e; obj := o1; world := w2; trace := [NewEarleyParser conf] |}
    end).
Proof. unfold Earley___init__. rewrite run_bind. reflexivity. Qed.

(** A frontend built on [WithLexer] holds, once constructed, the lexer
    configuration it was given and the lexer built from its token table
    and ignore set. *)
Lemma with_lexer_init_attrs h cls lc pc o w :
  with_lexer cls = true ->
  result (run h (class___init__ cls lc pc) o w) = Ok tt ->
  exists l w1,
    h (NewLexer (tokens lc) (ignore lc)) w = (Ok l, w1) /\
    obj (run h (class___init__ cls lc pc) o w) !! "lexer" = Some (VLexer l) /\
    obj (run h (class___init__ cls lc pc) o w) !! "lexer_conf" = Some (VLexerConf lc).
Proof.
  intros Hcls. destruct cls; try discriminate Hcls; unfold class___init__.
  - rewrite LALR___init___run, WithLexer___init___run.
    destruct (h (NewLexer _ _) w) as [[l|e] w1]; unfold after; simpl; [|discriminate].
    destruct (h (NewLalrParser pc) w1) as [[p|e] w2]; simpl; [|discriminate].
    intros _. exists l, w1. by simplify_map_eq.
  - rewrite Nearley___init___run, WithLexer___init___run.
    destruct (h (NewLexer _ _) w) as [[l|e] w1]; unfold after; simpl; [|discriminate].
    destruct (mapR _ _) as [rs|e]; simpl; [|discriminate].
    destruct (h (NewNearleyParser _ _) w1) as [[p|e] w2]; simpl; [|discriminate].
    intros _. exists l, w1. by simplify_map_eq.
  - rewrite Earley___init___run, WithLexer___init___run.
    destruct (h (NewLexer _ _) w) as [[l|e] w1]; unfold after; simpl; [|discriminate].
    destruct (h (NewEarleyParser _) w1) as [[p|e] w2]; simpl; [|discriminate].
    intros _. exists l, w1. by simplify_map_eq.
Qed.

End Construction.

(** ** Lexing through the post-lex transform *)

(** C5: on a constructed frontend built on [WithLexer] (the LALR, Nearley
    and Earley classes), when the lexer answers [lex(text)] with the stream
    [stream], [self.lex(text)] is the answer of the post-lex transform's
    [process] on [stream] when the lexer configuration has a post-lex
    transform, and [stream] itself, with no further call, when it has
    none. *)
Theorem WithLexer_lex_postlex `{C : Collaborators} {W : Type}
    (h : Handler W) (cls : FrontendClass) (lc : LexerConf) (pc : ParserConf string)
    (o0 : gmap string Value) (w0 : W) :
  with_lexer cls = true ->
  let r0 := run h (class___init__ cls lc pc) o0 w0 in
  result r0 = Ok tt ->
  exists l,
    obj r0 !! "lexer" = Some (VLexer l) /\
    forall w text stream w1,
      h (LexerLex l text) w = (Ok stream, w1) ->
      let r := run h (WithLexer_lex text) (obj r0) w in
      match postlex lc with
      | Some p =>
          result r = fst (h (PostLexProcess p stream) w1) /\
          trace r = [LexerLex l text; PostLexProcess p stream]
      | None =>
          result r = Ok stream /\ world r = w1 /\ trace r = [LexerLex l text]
      end.
Proof.
  intros Hcls r0 Hok. unfold r0 in *. clear r0.
  destruct (with_lexer_init_attrs h cls lc pc o0 w0 Hcls Hok) as (l & w1 & _ & Hl & Hlc).
  exists l. split; [done|].
  intros w text stream w2 Hlex. cbv zeta.
  rewrite (WithLexer_lex_run h _ w l lc text Hl Hlc), Hlex.
  destruct (postlex lc) as [p|]; [|done].
  by destruct (h (PostLexProcess p stream) w2) as [s w3].
Qed.

Lemma WithLexer_lex_postlex_witness :
  exists l,
    obj (Toy.fresh LALR Toy.lexer_conf_postlex Toy.parser_conf) !! "lexer" = Some (@VLexer Toy.collaborators l) /\
    forall w text stream w1,
      Toy.handler (@LexerLex Toy.collaborators l text) w = (Ok stream, w1) ->
      result (run Toy.handler (@WithLexer_lex Toy.collaborators text)
                (obj (Toy.fresh LALR Toy.lexer_conf_postlex Toy.parser_conf)) w) =
        fst (Toy.handler (@PostLexProcess Toy.collaborators ["NL"] stream) w1) /\
      trace (run Toy.handler (@WithLexer_lex Toy.collaborators text)
                (obj (Toy.fresh LALR Toy.lexer_conf_postlex Toy.parser_conf)) w) =
        [@LexerLex Toy.collaborators l text; @PostLexProcess Toy.collaborators ["NL"] stream].
Proof.
  exact (@WithLexer_lex_postlex Toy.collaborators nat Toy.handler LALR
           Toy.lexer_conf_postlex Toy.parser_conf ∅ 0%nat eq_refl eq_refl).
Defined.

(** ** The contextual-lexing LALR frontend *)

Section ContextualLexing.
Context `{C : Collaborators}.
Context {W : Type}.
Implicit Types (h : Handler W) (o : gmap string Value) (w : W).

Lemma state_token_kinds_lookup (p : LalrParser) (idx : nat) :
  state_token_kinds p !! idx = (fun t : gmap string Action => dom t) <$> (states_idx p !! idx).
Proof. unfold state_token_kinds. apply lookup_fmap. Qed.

Lemma state_token_kinds_dom (p : LalrParser) :
  dom (state_token_kinds p) = dom (states_idx p).
Proof. unfold state_token_kinds. apply dom_fmap_L. Qed.

Lemma LALR_ContextualLexer___init___run h lc pc o w :
  run h (LALR_ContextualLexer___init__ lc pc) o w =
  let o1 := <["parser_conf" := VParserConf pc]> (<["lexer_conf" := VLexerConf lc]> o) in
  match h (NewLalrParser pc) w with
  | (Ok p, w1) =>
      let o2 := <["parser" := VLalrParser p]> o1 in
      let c := NewContextualLexer (tokens lc) (state_token_kinds p) (ignore lc)
                 (always_accept_of lc) in
      match h c w1 with
      | (Ok l, w2) =>
          {| result := Ok tt; obj := <["lexer" := VContextualLexer l]> o2; world := w2;
             trace := [NewLalrParser pc; c] |}
      | (Raise e, w2) =>
          {| result := Raise e; obj := o2; world := w2; trace := [NewLalrParser pc; c] |}
      end
  | (Raise e, w1) =>
      {| result := Raise e; obj := o1; world := w1; trace := [NewLalrParser pc] |}
  end.
Proof.
  unfold LALR_ContextualLexer___init__; simpl.
  destruct (h (NewLalrParser pc) w) as [[p|e] w1]; [|done]. simpl.
  rewrite lookup_insert_eq. simpl.
  by destruct (h _ w1) as [[l|e] w2].
Qed.

End ContextualLexing.

(** C1: constructing the contextual-lexing LALR frontend calls the LALR
    engine's constructor first; if that fails nothing else is built.
    Otherwise the contextual lexer is constructed next, once, from the
    token table, the ignore set, the mapping that sends exactly the state
    indices of the engine's transition table each to the set of token
    kinds of its row, and the always-accept set of the post-lex
    configuration ([()] when there is none); the lexer attribute holds the
    lexer so built.  [parse] constructs nothing and assigns no attribute,
    so the mapping is never computed again. *)
Theorem LALR_ContextualLexer_states_once `{C : Collaborators} {W : Type}
    (h : Handler W) (lc : LexerConf) (pc : ParserConf string)
    (o : gmap string Value) (w : W) :
  let r := run h (LALR_ContextualLexer___init__ lc pc) o w in
  match h (NewLalrParser pc) w with
  | (Ok p, w1) =>
      exists d always,
        let c := NewContextualLexer (tokens lc) d (ignore lc) always in
        trace r = [NewLalrParser pc; c] /\
        dom d = dom (states_idx p) /\
        (forall idx t, states_idx p !! idx = Some t -> d !! idx = Some (dom t)) /\
        (forall pl, postlex lc = Some pl -> always = always_accept pl) /\
        (postlex lc = None -> always = []) /\
        (forall l w2, h c w1 = (Ok l, w2) ->
           result r = Ok tt /\ obj r !! "lexer" = Some (VContextualLexer l) /\
           forall text w3,
             let r' := run h (LALR_ContextualLexer_parse text) (obj r) w3 in
             Forall (fun c' => is_construction c' = false) (trace r') /\
             obj r' !! "lexer" = Some (VContextualLexer l))
  | (Raise e, w1) => result r = Raise e /\ trace r = [NewLalrParser pc]
  end.
Proof.
  intros r. unfold r. clear r. rewrite LALR_ContextualLexer___init___run. cbv zeta.
  destruct (h (NewLalrParser pc) w) as [[p|e] w1]; [|done].
  exists (state_token_kinds p), (always_accept_of lc). cbv zeta.
  split; [by destruct (h _ w1) as [[l|e] w2]|].
  split; [apply state_token_kinds_dom|].
  split; [intros idx t Ht; by rewrite state_token_kinds_lookup, Ht|].
  split; [intros pl Hpl; unfold always_accept_of; by rewrite Hpl|].
  split; [intros Hpl; unfold always_accept_of; by rewrite Hpl|].
  intros l w2 Hl. rewrite Hl. cbn [result obj].
  split; [done|]. split; [by rewrite lookup_insert_eq|].
  intros text w3.
  pose proof (class_parse_readonly LALR_ContextualLexer text) as Hro.
  pose proof (class_parse_constructs_nothing LALR_ContextualLexer text) as Hnc.
  cbn [class_parse] in Hro, Hnc.
  split; [by apply all_calls_trace|].
  rewrite (readonly_obj h _ _ w3 Hro). by rewrite lookup_insert_eq.
Qed.

Lemma LALR_ContextualLexer_states_once_witness :
  exists d always,
    trace (Toy.fresh LALR_ContextualLexer Toy.lexer_conf_postlex Toy.parser_conf) =
      [@NewLalrParser Toy.collaborators Toy.parser_conf;
       @NewContextualLexer Toy.collaborators [("A", "a"); ("B", "b")] d [] always] /\
    d !! 0%nat = Some {["A"]} /\ d !! 1%nat = Some ({["A"]} ∪ {["B"]}) /\ d !! 2%nat = None /\
    always = ["NL"].
Proof.
  destruct (@LALR_ContextualLexer_states_once Toy.collaborators nat Toy.handler
              Toy.lexer_conf_postlex Toy.parser_conf ∅ 0%nat)
    as (d & always & Htrace & Hdom & Hrows & Halways & _).
  exists d, always. split; [exact Htrace|].
  split; [rewrite (Hrows 0%nat (<["A" := 0%nat]> ∅) eq_refl); f_equal; set_solver|].
  split; [rewrite (Hrows 1%nat (<["B" := 2%nat]> (<["A" := 1%nat]> ∅)) eq_refl); f_equal; set_solver|].
  split; [apply not_elem_of_dom; rewrite Hdom; vm_compute; set_solver|].
  exact (Halways ["NL"] eq_refl).
Defined.

(** ** The registry *)

Lemma ENGINE_DICT_lookup (identifier : string) :
  ENGINE_DICT !! identifier =
  if decide (identifier = "lalr_contextual_lexer") then Some LALR_ContextualLexer
  else if decide (identifier = "earley_nolex") then Some Earley_NoLex
  else if decide (identifier = "earley") then Some Earley
  else if decide (identifier = "lalr") then Some LALR
  else None.
Proof.
  unfold ENGINE_DICT.
  repeat (rewrite lookup_insert; case_decide; [subst; by repeat (case_decide; simplify_eq)|]).
  rewrite lookup_empty.
  by repeat (case_decide; simplify_eq).
Qed.

(** C4: the registry holds exactly the four identifiers [lalr], [earley],
    [earley_nolex] and [lalr_contextual_lexer], each bound to its frontend
    class, so that constructing through it runs that class's constructor;
    for any other identifier the lookup finds nothing and construction
    fails with the configuration error without calling any collaborator
    and without touching the instance or the collaborators' state. *)
Theorem ENGINE_DICT_exactly_four `{C : Collaborators} {W : Type}
    (h : Handler W) (identifier : string) (lc : LexerConf) (pc : ParserConf string)
    (o : gmap string Value) (w : W) :
  (forall name cls, ENGINE_DICT !! name = Some cls <-> In (name, cls) registered) /\
  (forall cls, In (identifier, cls) registered ->
     construct identifier lc pc = class___init__ cls lc pc) /\
  ((forall cls, ~ In (identifier, cls) registered) ->
     ENGINE_DICT !! identifier = None /\
     run h (construct identifier lc pc) o w =
       {| result := Raise (ConfigurationError identifier); obj := o; world := w; trace := [] |}).
Proof.
  assert (forall name cls, ENGINE_DICT !! name = Some cls <-> In (name, cls) registered) as Hreg.
  { intros name cls. rewrite ENGINE_DICT_lookup. unfold registered; simpl.
    repeat case_decide; subst; split; intros Hx; simplify_eq; auto 6;
      repeat (destruct Hx as [Hx|Hx]; simplify_eq); done. }
  split; [exact Hreg|]. split.
  - intros cls Hin. apply Hreg in Hin. unfold construct. by rewrite Hin.
  - intros Hnot.
    assert (ENGINE_DICT !! identifier = None) as Hnone.
    { destruct (ENGINE_DICT !! identifier) as [cls|] eqn:Hl; [|done].
      apply Hreg in Hl. by destruct (Hnot cls). }
    split; [done|]. unfold construct. by rewrite Hnone.
Qed.

Lemma ENGINE_DICT_exactly_four_witness :
  ENGINE_DICT !! "glr" = None /\
  run Toy.handler (@construct Toy.collaborators "glr" Toy.lexer_conf Toy.parser_conf) ∅ 0%nat =
    {| result := Raise (ConfigurationError "glr"); obj := ∅; world := 0%nat; trace := [] |}.
Proof.
  apply (proj2 (proj2 (@ENGINE_DICT_exactly_four Toy.collaborators nat Toy.handler "glr"
                         Toy.lexer_conf Toy.parser_conf ∅ 0%nat))).
  intros cls Hin. simpl in Hin.
  repeat (destruct Hin as [Hin|Hin]; [discriminate Hin|]). exact Hin.
Defined.

(** ** Translating expansions for the lexed chart engines *)

(** C6, as the code has it: both lexed chart-engine frontends translate an
    expansion symbol by symbol, in order.  A nonterminal is passed through
    as the bare name.  A terminal becomes a tuple holding the name: the
    one-element tuple [(sym,)] for Earley, the two-element tuple
    [(sym, None)] for Nearley.  In both, a translated symbol is a tuple
    exactly when the symbol is a terminal, and the name is recovered from
    it. *)
Theorem prepare_expansion_marks_terminals `{C : Collaborators}
    (expansion : list string) (i : nat) (sym : string) :
  expansion !! i = Some sym ->
  let e := Earley__prepare_expansion expansion in
  let n := Nearley__prepare_expansion expansion in
  length e = length expansion /\ length n = length expansion /\
  exists se sn,
    e !! i = Some se /\ n !! i = Some sn /\
    is_tuple se = is_terminal sym /\ is_tuple sn = is_terminal sym /\
    symbol_name se = Some sym /\ symbol_name sn = Some sym /\
    (if is_terminal sym
     then se = SymTuple [PStr sym] /\ sn = SymTuple [PStr sym; PNone] /\
          tuple_len se = Some 1%nat /\ tuple_len sn = Some 2%nat
     else se = SymStr sym /\ sn = SymStr sym).
Proof.
  intros Hi e n. unfold e, n, Earley__prepare_expansion, Nearley__prepare_expansion.
  rewrite !length_map. split; [done|]. split; [done|].
  eexists _, _. rewrite !list_lookup_fmap, Hi. simpl.
  split; [reflexivity|]. split; [reflexivity|].
  destruct (is_terminal sym); simpl; auto 10.
Qed.

Lemma prepare_expansion_marks_terminals_witness :
  exists se sn,
    @Earley__prepare_expansion Toy.collaborators ["A"; "b"] !! 0%nat = Some se /\
    @Nearley__prepare_expansion Toy.collaborators ["A"; "b"] !! 0%nat = Some sn /\
    se = SymTuple [PStr "A"] /\ sn = SymTuple [PStr "A"; PNone].
Proof.
  destruct (@prepare_expansion_marks_terminals Toy.collaborators ["A"; "b"] 0%nat "A" eq_refl)
    as (_ & _ & se & sn & He & Hn & _ & _ & _ & _ & Hshape).
  exists se, sn. simpl in Hshape. tauto.
Defined.

(** C6 as stated fails for Nearley: the terminal [A] is wrapped in a
    tuple of two elements, not one. *)
Lemma Nearley_terminal_marker_has_two_elements :
  @is_terminal Toy.collaborators "A" = true /\
  @Nearley__prepare_expansion Toy.collaborators ["A"] = [SymTuple [PStr "A"; PNone]] /\
  map tuple_len (@Nearley__prepare_expansion Toy.collaborators ["A"]) = [Some 2%nat].
Proof. repeat split. Qed.

(** ** The scannerless frontends: construction *)

Section Scannerless.
Context `{C : Collaborators}.
Context {W : Type}.
Implicit Types (h : Handler W) (o : gmap string Value) (w : W).
Implicit Types (tbn : gmap string TokenDef) (cb : gmap string Callable).

Lemma width_1_regexp_quiet sym : quiet (width_1_regexp sym).
Proof. unfold width_1_regexp, lift. split; prog_tree. Qed.

Lemma width_1_regexp_result h o w tbn sym :
  o !! "token_by_name" = Some (VTokenByName tbn) ->
  result (run h (width_1_regexp sym) o w) = width_checked tbn sym.
Proof.
  intros Ho. unfold width_1_regexp, width_checked; simpl. rewrite Ho; simpl.
  destruct (tbn !! sym) as [t|]; [|done].
  destruct (sre_getwidth (to_regexp t)) as [width|e]; simpl; [|done].
  destruct (decide (width = (1, 1))); [|done].
  by destruct (re_compile (to_regexp t)).
Qed.

Lemma Earley_NoLex_symbol_quiet sym :
  quiet (if is_terminal sym
         then do '(_, re) <- width_1_regexp sym; Return (SymTuple [PMatch re])
         else Return (SymStr sym)).
Proof.
  destruct (is_terminal sym); [|split; constructor].
  apply quiet_bind; [apply width_1_regexp_quiet|]. intros [? ?]. split; constructor.
Qed.

Lemma Nearley_NoLex_symbol_quiet sym :
  quiet (if is_terminal sym
         then do '(_, re) <- width_1_regexp sym; Return (SymTuple [PStr sym; PRegex re])
         else Return (SymStr sym)).
Proof.
  destruct (is_terminal sym); [|split; constructor].
  apply quiet_bind; [apply width_1_regexp_quiet|]. intros [? ?]. split; constructor.
Qed.

Lemma Earley_NoLex__prepare_expansion_quiet x : quiet (Earley_NoLex__prepare_expansion x).
Proof. apply for_each_quiet, Earley_NoLex_symbol_quiet. Qed.

Lemma Nearley_NoLex__prepare_expansion_quiet x : quiet (Nearley_NoLex__prepare_expansion x).
Proof. apply for_each_quiet, Nearley_NoLex_symbol_quiet. Qed.

Lemma Earley_NoLex__prepare_expansion_result h o w tbn x :
  o !! "token_by_name" = Some (VTokenByName tbn) ->
  result (run h (Earley_NoLex__prepare_expansion x) o w) = mapR (Earley_NoLex_symbol tbn) x.
Proof.
  intros Ho. unfold Earley_NoLex__prepare_expansion.
  rewrite for_each_quiet_result by apply Earley_NoLex_symbol_quiet.
  apply mapR_ext. intros sym. unfold Earley_NoLex_symbol.
  destruct (is_terminal sym); [|done].
  rewrite run_bind, (quiet_run h _ o w (width_1_regexp_quiet sym)).
  rewrite (width_1_regexp_result h o w tbn sym Ho). unfold after; simpl.
  by destruct (width_checked tbn sym) as [[? ?]|].
Qed.

Lemma Nearley_NoLex__prepare_expansion_result h o w tbn x :
  o !! "token_by_name" = Some (VTokenByName tbn) ->
  result (run h (Nearley_NoLex__prepare_expansion x) o w) = mapR (Nearley_NoLex_symbol tbn) x.
Proof.
  intros Ho. unfold Nearley_NoLex__prepare_expansion.
  rewrite for_each_quiet_result by apply Nearley_NoLex_symbol_quiet.
  apply mapR_ext. intros sym. unfold Nearley_NoLex_symbol.
  destruct (is_terminal sym); [|done].
  rewrite run_bind, (quiet_run h _ o w (width_1_regexp_quiet sym)).
  rewrite (width_1_regexp_result h o w tbn sym Ho). unfold after; simpl.
  by destruct (width_checked tbn sym) as [[? ?]|].
Qed.

Lemma Earley_NoLex_rules_run h tbn rs o w :
  o !! "token_by_name" = Some (VTokenByName tbn) ->
  run h (for_each (fun '(n, x, a) =>
           do symbols <- Earley_NoLex__prepare_expansion x;
           Return (n, symbols, a)) rs) o w =
  {| result := mapR (Earley_NoLex_rule tbn) rs; obj := o; world := w; trace := [] |}.
Proof.
  intros Ho. set (f := fun '(n, x, a) => _).
  assert (forall r, quiet (f r)) as Hq.
  { intros [[n x] a]. unfold f.
    apply quiet_bind; [apply Earley_NoLex__prepare_expansion_quiet|].
    intros g. split; constructor. }
  rewrite (quiet_run h _ o w (for_each_quiet f rs Hq)). f_equal.
  rewrite (for_each_quiet_result h f rs o w Hq). apply mapR_ext.
  intros [[n x] a]. unfold f, Earley_NoLex_rule.
  rewrite run_bind, (quiet_run h _ o w (Earley_NoLex__prepare_expansion_quiet x)).
  rewrite (Earley_NoLex__prepare_expansion_result h o w tbn x Ho). unfold after; simpl.
  by destruct (mapR _ x).
Qed.

Lemma Nearley_NoLex_rules_run h tbn cb rs o w :
  o !! "token_by_name" = Some (VTokenByName tbn) ->
  run h (for_each (fun '(n, x, a) =>
           do symbols <- Nearley_NoLex__prepare_expansion x;
           do f <- callback_getattr cb a;
           Return {| nr_name := n; nr_symbols := symbols; nr_postprocess := f |}) rs) o w =
  {| result := mapR (Nearley_NoLex_rule tbn cb) rs; obj := o; world := w; trace := [] |}.
Proof.
  intros Ho. set (f := fun '(n, x, a) => _).
  assert (forall r, quiet (f r)) as Hq.
  { intros [[n x] a]. unfold f.
    apply quiet_bind; [apply Nearley_NoLex__prepare_expansion_quiet|]. intros symbols.
    apply quiet_bind; [apply callback_getattr_quiet|].
    intros g. split; constructor. }
  rewrite (quiet_run h _ o w (for_each_quiet f rs Hq)). f_equal.
  rewrite (for_each_quiet_result h f rs o w Hq). apply mapR_ext.
  intros [[n x] a]. unfold f, Nearley_NoLex_rule.
  rewrite run_bind, (quiet_run h _ o w (Nearley_NoLex__prepare_expansion_quiet x)).
  rewrite (Nearley_NoLex__prepare_expansion_result h o w tbn x Ho). unfold after; simpl.
  destruct (mapR _ x) as [symbols|e]; [|done].
  unfold callback_getattr. by destruct (cb !! a).
Qed.

Lemma Earley_NoLex___init___run h lc pc o w :
  run h (Earley_NoLex___init__ lc pc) o w =
  let tbn := token_by_name_of (tokens lc) in
  let o1 := <["token_by_name" := VTokenByName tbn]> o in
  match mapR (Earley_NoLex_rule tbn) (rules pc) with
  | Ok rs =>
      let conf := {| rules := rs; callback := callback pc; start := start pc |} in
      match h (NewEarleyParser conf) w with
      | (Ok p, w2) =>
          {| result := Ok tt; obj := <["parser" := VEarleyParser p]> o1;
             world := w2; trace := [NewEarleyParser conf] |}
      | (Raise e, w2) =>
          {| result := Raise e; obj := o1; world := w2; trace := [NewEarleyParser conf] |}
      end
  | Raise e => {| result := Raise e; obj := o1; world := w; trace := [] |}
  end.
Proof.
  unfold Earley_NoLex___init__.
  change (run h (exec setattr ?n ?v; ?k) o w) with (run h k (<[n := v]> o) w).
  rewrite run_bind, (Earley_NoLex_rules_run h (token_by_name_of (tokens lc)))
    by apply lookup_insert_eq.
  unfold after; simpl. destruct (mapR _ _) as [rs|e]; [|done]. simpl.
  by destruct (h _ w) as [[p|e] w2].
Qed.

Lemma Nearley_NoLex___init___run h lc pc o w :
  run h (Nearley_NoLex___init__ lc pc) o w =
  let tbn := token_by_name_of (tokens lc) in
  let o1 := <["token_by_name" := VTokenByName tbn]> o in
  match mapR (Nearley_NoLex_rule tbn (callback pc)) (rules pc) with
  | Ok rs =>
      match h (NewNearleyParser rs (start pc)) w with
      | (Ok p, w2) =>
          {| result := Ok tt; obj := <["parser" := VNearleyParser p]> o1;
             world := w2; trace := [NewNearleyParser rs (start pc)] |}
      | (Raise e, w2) =>
          {| result := Raise e; obj := o1; world := w2;
             trace := [NewNearleyParser rs (start pc)] |}
      end
  | Raise e => {| result := Raise e; obj := o1; world := w; trace := [] |}
  end.
Proof.
  unfold Nearley_NoLex___init__.
  change (run h (exec setattr ?n ?v; ?k) o w) with (run h k (<[n := v]> o) w).
  rewrite run_bind, (Nearley_NoLex_rules_run h (token_by_name_of (tokens lc)))
    by apply lookup_insert_eq.
  unfold after; simpl. destruct (mapR _ _) as [rs|e]; [|done]. simpl.
  by destruct (h _ w) as [[p|e] w2].
Qed.

End Scannerless.

(** ** The scannerless frontends: the width check *)

Section WidthCheck.
Context `{C : Collaborators}.
Context {W : Type}.
Implicit Types (h : Handler W) (o : gmap string Value) (w : W).
Implicit Types (tbn : gmap string TokenDef) (pc : ParserConf string).

Lemma mapR_spec {A B} (f : A -> Result B) (P : A -> Prop) (l : list A) :
  (forall x, In x l ->
     (P x /\ is_GrammarError (f x) = true) \/ (~ P x /\ is_Ok (f x) = true)) ->
  ((exists x, In x l /\ P x) /\ is_GrammarError (mapR f l) = true) \/
  ((~ exists x, In x l /\ P x) /\ is_Ok (mapR f l) = true).
Proof.
  induction l as [|y l IH]; intros Hl; simpl.
  - right. split; [|done]. intros (x & [] & _).
  - destruct (Hl y (or_introl eq_refl)) as [[HP Hy]|[HP Hy]].
    + left. split; [exists y; auto|]. by destruct (f y) as [|[]].
    + destruct (f y) as [b|]; [|done].
      destruct IH as [[(x & Hin & Hx) Hr]|[Hno Hr]]; [intros x Hx; apply Hl; by right|..].
      * left. split; [exists x; auto|]. by destruct (mapR f l) as [|[]].
      * right. split; [|by destruct (mapR f l)].
        intros (x & [->|Hin] & Hx); [done|]. apply Hno. eauto.
Qed.

Lemma width_checked_spec tbn sym :
  is_terminal sym = true ->
  (exists t width re,
     tbn !! sym = Some t /\ sre_getwidth (to_regexp t) = Ok width /\
     re_compile (to_regexp t) = Ok re) ->
  (bad_width tbn sym /\ is_GrammarError (width_checked tbn sym) = true) \/
  (~ bad_width tbn sym /\ is_Ok (width_checked tbn sym) = true).
Proof.
  intros Hterm (t & width & re & Ht & Hw & Hre). unfold width_checked, bad_width.
  rewrite Ht, Hw. destruct (decide (width = (1, 1))) as [->|Hne].
  - right. rewrite Hre. split; [|done].
    intros (_ & t' & width' & Ht' & Hw' & Hne). congruence.
  - left. split; [|done]. split; [done|]. by exists t, width.
Qed.

Lemma Earley_NoLex_symbol_spec tbn pc sym :
  terminals_resolve tbn pc -> occurs pc sym ->
  (bad_width tbn sym /\ is_GrammarError (Earley_NoLex_symbol tbn sym) = true) \/
  (~ bad_width tbn sym /\ is_Ok (Earley_NoLex_symbol tbn sym) = true).
Proof.
  intros Hres Hocc. unfold Earley_NoLex_symbol.
  destruct (is_terminal sym) eqn:Hterm.
  - destruct (width_checked_spec tbn sym Hterm (Hres sym Hocc Hterm)) as [[Hb Hr]|[Hb Hr]].
    + left. split; [done|]. by destruct (width_checked tbn sym) as [[? ?]|[]].
    + right. split; [done|]. by destruct (width_checked tbn sym) as [[? ?]|[]].
  - right. split; [|done]. intros [Hb _]. congruence.
Qed.

Lemma Nearley_NoLex_symbol_spec tbn pc sym :
  terminals_resolve tbn pc -> occurs pc sym ->
  (bad_width tbn sym /\ is_GrammarError (Nearley_NoLex_symbol tbn sym) = true) \/
  (~ bad_width tbn sym /\ is_Ok (Nearley_NoLex_symbol tbn sym) = true).
Proof.
  intros Hres Hocc. unfold Nearley_NoLex_symbol.
  destruct (is_terminal sym) eqn:Hterm.
  - destruct (width_checked_spec tbn sym Hterm (Hres sym Hocc Hterm)) as [[Hb Hr]|[Hb Hr]].
    + left. split; [done|]. by destruct (width_checked tbn sym) as [[? ?]|[]].
    + right. split; [done|]. by destruct (width_checked tbn sym) as [[? ?]|[]].
  - right. split; [|done]. intros [Hb _]. congruence.
Qed.

Lemma bad_rule_occurs tbn pc :
  (exists r, In r (rules pc) /\ bad_rule tbn r) <->
  (exists sym, occurs pc sym /\ bad_width tbn sym).
Proof.
  split.
  - intros ([[n x] a] & Hin & sym & Hsym & Hbad). exists sym. split; [|done].
    by exists n, x, a.
  - intros (sym & (n & x & a & Hin & Hsym) & Hbad). exists (n, x, a). split; [done|].
    by exists sym.
Qed.

Lemma Earley_NoLex_rules_spec tbn pc :
  terminals_resolve tbn pc ->
  ((exists sym, occurs pc sym /\ bad_width tbn sym) /\
   is_GrammarError (mapR (Earley_NoLex_rule tbn) (rules pc)) = true) \/
  ((~ exists sym, occurs pc sym /\ bad_width tbn sym) /\
   is_Ok (mapR (Earley_NoLex_rule tbn) (rules pc)) = true).
Proof.
  intros Hres. rewrite <- bad_rule_occurs.
  apply mapR_spec. intros [[n x] a] Hin. unfold Earley_NoLex_rule, bad_rule; simpl.
  destruct (mapR_spec (Earley_NoLex_symbol tbn) (bad_width tbn) x) as [[Hb Hr]|[Hb Hr]].
  - intros sym Hsym. apply (Earley_NoLex_symbol_spec tbn pc); [done|]. by exists n, x, a.
  - left. split; [done|]. by destruct (mapR _ x) as [|[]].
  - right. split; [done|]. by destruct (mapR _ x).
Qed.

Lemma Nearley_NoLex_rules_spec tbn pc :
  terminals_resolve tbn pc -> actions_resolve pc ->
  ((exists sym, occurs pc sym /\ bad_width tbn sym) /\
   is_GrammarError (mapR (Nearley_NoLex_rule tbn (callback pc)) (rules pc)) = true) \/
  ((~ exists sym, occurs pc sym /\ bad_width tbn sym) /\
   is_Ok (mapR (Nearley_NoLex_rule tbn (callback pc)) (rules pc)) = true).
Proof.
  intros Hres Hact. rewrite <- bad_rule_occurs.
  apply mapR_spec. intros [[n x] a] Hin. unfold Nearley_NoLex_rule, bad_rule; simpl.
  destruct (mapR_spec (Nearley_NoLex_symbol tbn) (bad_width tbn) x) as [[Hb Hr]|[Hb Hr]].
  - intros sym Hsym. apply (Nearley_NoLex_symbol_spec tbn pc); [done|]. by exists n, x, a.
  - left. split; [done|]. by destruct (mapR _ x) as [|[]].
  - right. split; [done|]. destruct (mapR _ x); [|done].
    by destruct (Hact n x a Hin) as [f ->].
Qed.

End WidthCheck.

(** C3, as the code has it: when every terminal of the rules has a token
    definition whose regular expression parses and compiles (and, for
    Nearley_NoLex, every action named by a rule is provided by the
    callback), constructing a scannerless frontend stops on the grammar
    error, before any engine is built, if and only if some terminal
    occurring in a right-hand side has a pattern whose width is not
    (1, 1). *)
Theorem scannerless_width_check `{C : Collaborators} {W : Type}
    (h : Handler W) (cls : FrontendClass) (lc : LexerConf) (pc : ParserConf string)
    (o : gmap string Value) (w : W) :
  scannerless cls = true ->
  terminals_resolve (token_by_name_of (tokens lc)) pc ->
  (cls = Nearley_NoLex -> actions_resolve pc) ->
  width_check_fails (run h (class___init__ cls lc pc) o w) <->
  exists sym, occurs pc sym /\ bad_width (token_by_name_of (tokens lc)) sym.
Proof.
  intros Hcls Hres Hact. unfold width_check_fails.
  destruct cls; try discriminate Hcls; unfold class___init__.
  - rewrite Nearley_NoLex___init___run. cbv zeta.
    destruct (Nearley_NoLex_rules_spec _ pc Hres (Hact eq_refl)) as [[Hb Hr]|[Hb Hr]].
    + destruct (mapR _ _) as [|e]; [done|]. simpl. tauto.
    + destruct (mapR _ _) as [rs|e]; [|done].
      split; [|tauto]. intros [_ Ht].
      by destruct (h _ w) as [[p|e] w2].
  - rewrite Earley_NoLex___init___run. cbv zeta.
    destruct (Earley_NoLex_rules_spec _ pc Hres) as [[Hb Hr]|[Hb Hr]].
    + destruct (mapR _ _) as [|e]; [done|]. simpl. tauto.
    + destruct (mapR _ _) as [rs|e]; [|done].
      split; [|tauto]. intros [_ Ht].
      by destruct (h _ w) as [[p|e] w2].
Qed.

Lemma scannerless_width_check_witness :
  width_check_fails (Toy.fresh Earley_NoLex ToyScannerless.wide Toy.parser_conf) /\
  result (Toy.fresh Earley_NoLex (ToyScannerless.one_token "b") ToyScannerless.one_rule) = Ok tt /\
  result (Toy.fresh Earley_NoLex (ToyScannerless.one_token "") ToyScannerless.one_rule)
    = Raise (GrammarError "" (0, 0)) /\
  result (Toy.fresh Earley_NoLex (ToyScannerless.one_token "bb") ToyScannerless.one_rule)
    = Raise (GrammarError "bb" (2, 2)) /\
  result (Toy.fresh Earley_NoLex (ToyScannerless.one_token "b*") ToyScannerless.one_rule)
    = Raise (GrammarError "b*" (0, Toy.MAXREPEAT)).
Proof.
  split; [|repeat split].
  apply (@scannerless_width_check Toy.collaborators nat Toy.handler Earley_NoLex
           ToyScannerless.wide Toy.parser_conf ∅ 0%nat).
  - reflexivity.
  - intros sym (n & x & a & Hin & Hsym) Hterm. simpl in Hin.
    destruct Hin as [Hin|[Hin|[]]]; injection Hin as <- <- <-; simpl in Hsym.
    + destruct Hsym as [<-|[<-|[]]].
      * exists ("A", "a"), (1, 1), "a". by vm_compute.
      * discriminate Hterm.
    + destruct Hsym as [<-|[]]. exists ("B", "bb"), (2, 2), "bb". by vm_compute.
  - discriminate.
  - exists "B". split.
    + exists "b", ["B"], "g". simpl. auto.
    + split; [reflexivity|]. exists ("B", "bb"), (2, 2). by vm_compute.
Defined.

(** C3 as stated fails: a terminal of width (2, 2) occurs in a right-hand
    side, yet construction does not fail with the grammar error, because
    another failure comes first: an undefined terminal earlier in the
    expansion (both scannerless frontends), or, for Nearley_NoLex, an
    action of an earlier rule that the callback does not provide. *)
Lemma scannerless_other_failure_first :
  (occurs ToyScannerless.two_terminals "B" /\
   bad_width (C := Toy.collaborators)
     (token_by_name_of (tokens ToyScannerless.undefined_terminal)) "B" /\
   result (Toy.fresh Earley_NoLex ToyScannerless.undefined_terminal
             ToyScannerless.two_terminals) = Raise (KeyError "A") /\
   result (Toy.fresh Nearley_NoLex ToyScannerless.undefined_terminal
             ToyScannerless.two_terminals) = Raise (KeyError "A")) /\
  (occurs ToyScannerless.missing_action "B" /\
   bad_width (C := Toy.collaborators)
     (token_by_name_of (tokens ToyScannerless.wide)) "B" /\
   result (Toy.fresh Nearley_NoLex ToyScannerless.wide ToyScannerless.missing_action)
     = Raise (AttributeError "missing")).
Proof.
  split; [split; [|split; [|split; reflexivity]] | split; [|split; [|reflexivity]]].
  - exists "start", ["A"; "B"], "f". simpl. auto.
  - split; [reflexivity|]. exists ("B", "bb"), (2, 2). by vm_compute.
  - exists "b", ["B"], "g". simpl. auto.
  - split; [reflexivity|]. exists ("B", "bb"), (2, 2). by vm_compute.
Qed.

(** ** The scannerless frontends and the lexer configuration *)

Lemma scannerless_init_calls `{C : Collaborators} {W : Type}
    (h : Handler W) (cls : FrontendClass) (lc : LexerConf) (pc : ParserConf string)
    (o : gmap string Value) (w : W) :
  scannerless cls = true ->
  Forall engine_construction (trace (run h (class___init__ cls lc pc) o w)).
Proof.
  intros Hcls. destruct cls; try discriminate Hcls; unfold class___init__.
  - rewrite Nearley_NoLex___init___run. cbv zeta.
    destruct (mapR _ _) as [rs|e]; [|constructor].
    destruct (h _ w) as [[p|e] w2]; by repeat constructor.
  - rewrite Earley_NoLex___init___run. cbv zeta.
    destruct (mapR _ _) as [rs|e]; [|constructor].
    destruct (h _ w) as [[p|e] w2]; by repeat constructor.
Qed.

Lemma scannerless_parse_calls `{C : Collaborators} (cls : FrontendClass) (text : string) :
  scannerless cls = true -> all_calls (raw_text_call text) (class_parse cls text).
Proof.
  intros Hcls. destruct cls; try discriminate Hcls;
    unfold class_parse, Nearley_NoLex_parse, Earley_NoLex_parse, single_parse; prog_tree.
Qed.

(** C9: for the two scannerless frontends, two lexer configurations with
    the same token table, whatever their ignore sets and post-lex
    transforms, give the same construction (same result, same instance
    attributes, same calls, same collaborators' state), in which only a
    chart engine is built, and hence the same [parse] afterwards; and the only calls [parse] makes hand the raw text
    to the chart engine: no lexer and no post-lex transform is called. *)
Theorem scannerless_ignores_lexing_options `{C : Collaborators} {W : Type}
    (h : Handler W) (cls : FrontendClass) (lc1 lc2 : LexerConf) (pc : ParserConf string)
    (o : gmap string Value) (w : W) (text : string) :
  scannerless cls = true ->
  tokens lc1 = tokens lc2 ->
  let r1 := run h (class___init__ cls lc1 pc) o w in
  let r2 := run h (class___init__ cls lc2 pc) o w in
  r1 = r2 /\
  Forall engine_construction (trace r1) /\
  run h (class_parse cls text) (obj r1) (world r1) =
    run h (class_parse cls text) (obj r2) (world r2) /\
  Forall (raw_text_call text) (trace (run h (class_parse cls text) (obj r1) (world r1))).
Proof.
  intros Hcls Htok r1 r2.
  assert (r1 = r2) as Heq.
  { unfold r1, r2. destruct cls; try discriminate Hcls;
      unfold class___init__, Nearley_NoLex___init__, Earley_NoLex___init__;
      by rewrite Htok. }
  split; [done|]. split; [by apply scannerless_init_calls|]. split; [by rewrite Heq|].
  by apply all_calls_trace, scannerless_parse_calls.
Qed.

Lemma scannerless_ignores_lexing_options_witness :
  Toy.fresh Earley_NoLex Toy.lexer_conf Toy.parser_conf =
    Toy.fresh Earley_NoLex Toy.lexer_conf_postlex Toy.parser_conf /\
  Forall (@engine_construction Toy.collaborators)
    (trace (Toy.fresh Earley_NoLex Toy.lexer_conf Toy.parser_conf)) /\
  Toy.parse_on Earley_NoLex (Toy.fresh Earley_NoLex Toy.lexer_conf Toy.parser_conf) "ab" =
    Toy.parse_on Earley_NoLex (Toy.fresh Earley_NoLex Toy.lexer_conf_postlex Toy.parser_conf) "ab" /\
  Forall (@raw_text_call Toy.collaborators "ab")
    (trace (Toy.parse_on Earley_NoLex
              (Toy.fresh Earley_NoLex Toy.lexer_conf Toy.parser_conf) "ab")).
Proof.
  exact (@scannerless_ignores_lexing_options Toy.collaborators nat Toy.handler Earley_NoLex
           Toy.lexer_conf Toy.lexer_conf_postlex Toy.parser_conf ∅ 0%nat "ab"
           eq_refl eq_refl).
Defined.

(** ** Semantic actions at construction *)

Section Actions.
Context `{C : Collaborators}.
Context {W : Type}.
Implicit Types (h : Handler W) (o : gmap string Value) (w : W).
Implicit Types (tbn : gmap string TokenDef) (cb : gmap string Callable).

Lemma Nearley_rule_missing cb rs n x a :
  In (n, x, a) rs -> cb !! a = None ->
  exists a', mapR (Nearley_rule cb) rs = Raise (AttributeError a') /\ cb !! a' = None.
Proof.
  induction rs as [|[[n0 x0] a0] rs IH]; simpl; [done|].
  intros Hin Ha. destruct (cb !! a0) as [f|] eqn:Ha0.
  - destruct Hin as [Hin|Hin]; [congruence|].
    destruct (IH Hin Ha) as (a' & -> & Ha'). by exists a'.
  - by exists a0.
Qed.

Lemma Nearley_NoLex_rule_missing tbn cb rs n x a :
  In (n, x, a) rs -> cb !! a = None ->
  is_Ok (mapR (Nearley_NoLex_rule tbn cb) rs) = false.
Proof.
  intros Hin Ha. apply (mapR_In_Raise _ rs (n, x, a) Hin).
  unfold Nearley_NoLex_rule. rewrite Ha. by destruct (mapR _ x).
Qed.

Lemma Earley_NoLex_rule_actions tbn rs rs' :
  mapR (Earley_NoLex_rule tbn) rs = Ok rs' -> map snd rs' = map snd rs.
Proof.
  revert rs'; induction rs as [|[[n x] a] rs IH]; simpl; intros rs' Hrs.
  - by injection Hrs as <-.
  - destruct (mapR (Earley_NoLex_symbol tbn) x) as [symbols|e]; [|done].
    destruct (mapR (Earley_NoLex_rule tbn) rs) as [rs0|e]; [|done].
    injection Hrs as <-. simpl. by rewrite (IH rs0 eq_refl).
Qed.

Lemma Earley_rule_actions (rs : list (string * list string * string)) :
  map snd (map (fun '(n, x, a) => (n, Earley__prepare_expansion x, a)) rs) = map snd rs.
Proof. induction rs as [|[[n x] a] rs IH]; simpl; [done|]. by rewrite IH. Qed.

Lemma Earley_rules_translated (rs : list (string * list string * string)) :
  Forall2 (fun '(n, x, a) '(n', x', a') =>
             n' = n /\ x' = Earley__prepare_expansion x /\ a' = a)
          rs (map (fun '(n, x, a) => (n, Earley__prepare_expansion x, a)) rs).
Proof. induction rs as [|[[n x] a] rs IH]; simpl; constructor; auto. Qed.

Lemma Earley_NoLex_rules_translated tbn rs rs' :
  mapR (Earley_NoLex_rule tbn) rs = Ok rs' ->
  Forall2 (fun '(n, x, a) '(n', x', a') => n' = n /\ a' = a) rs rs'.
Proof.
  revert rs'; induction rs as [|[[n x] a] rs IH]; simpl; intros rs' Hrs.
  - injection Hrs as <-. constructor.
  - destruct (mapR (Earley_NoLex_symbol tbn) x) as [symbols|e]; [|done].
    destruct (mapR (Earley_NoLex_rule tbn) rs) as [rs0|e]; [|done].
    injection Hrs as <-. constructor; auto.
Qed.

(** When every terminal of the rules has a token definition of width
    exactly (1, 1) whose regular expression compiles, the rules of
    [Earley_NoLex.__init__] all translate. *)
Lemma Earley_NoLex_rules_translate tbn (pc : ParserConf string) :
  (forall sym, occurs pc sym -> is_terminal sym = true ->
     exists t re,
       tbn !! sym = Some t /\ sre_getwidth (to_regexp t) = Ok (1, 1) /\
       re_compile (to_regexp t) = Ok re) ->
  exists rs, mapR (Earley_NoLex_rule tbn) (rules pc) = Ok rs.
Proof.
  intros Hw.
  destruct (Earley_NoLex_rules_spec tbn pc) as [[(sym & Hocc & Hbad) _]|[_ Hok]].
  - intros sym Hocc Hterm. destruct (Hw sym Hocc Hterm) as (t & re & Ht & Hwidth & Hre).
    by exists t, (1, 1), re.
  - destruct Hbad as (Hterm & t & width & Ht & Hwidth & Hne).
    destruct (Hw sym Hocc Hterm) as (t' & re & Ht' & Hwidth' & _). congruence.
  - destruct (mapR _ (rules pc)) as [rs|e]; [by exists rs|done].
Qed.

End Actions.

(** C10: the Nearley frontends resolve every rule's action against the
    callback object while they are constructed: when some rule names an
    action that the callback object does not provide, constructing either
    Nearley frontend fails and builds no engine (for Nearley, once its lexer
    is built, with the attribute error of a missing action).  The Earley
    frontends never look an action up, whatever the callback object
    provides: once its lexer is built, Earley calls the engine constructor
    with the callback object, the start symbol and the rules in order, each
    with its name, its translated expansion and its action identifier as
    given, and the outcome of its construction is that of this call;
    Earley_NoLex does the same with the rules it translates, which it does
    whenever every terminal has a definition of width (1, 1) that
    compiles. *)
Theorem actions_resolved_at_construction `{C : Collaborators} {W : Type}
    (h : Handler W) (lc : LexerConf) (pc : ParserConf string)
    (o : gmap string Value) (w : W) :
  (forall n x a,
     In (n, x, a) (rules pc) ->
     callback pc !! a = None ->
     (forall cls, cls = Nearley \/ cls = Nearley_NoLex ->
        let r := run h (class___init__ cls lc pc) o w in
        is_Ok (result r) = false /\ Forall (fun c => ~ engine_construction c) (trace r)) /\
     (forall l w1, h (NewLexer (tokens lc) (ignore lc)) w = (Ok l, w1) ->
        exists a', result (run h (Nearley___init__ lc pc) o w) = Raise (AttributeError a') /\
                   callback pc !! a' = None)) /\
  (forall l w1,
     h (NewLexer (tokens lc) (ignore lc)) w = (Ok l, w1) ->
     let r := run h (Earley___init__ lc pc) o w in
     exists conf,
       trace r = [NewLexer (tokens lc) (ignore lc); NewEarleyParser conf] /\
       Forall2 (fun '(n, x, a) '(n', x', a') =>
                  n' = n /\ x' = Earley__prepare_expansion x /\ a' = a)
               (rules pc) (rules conf) /\
       callback conf = callback pc /\ start conf = start pc /\
       result r = match fst (h (NewEarleyParser conf) w1) with
                  | Ok _ => Ok tt
                  | Raise e => Raise e
                  end) /\
  ((forall sym, occurs pc sym -> is_terminal sym = true ->
      exists t re,
        token_by_name_of (tokens lc) !! sym = Some t /\
        sre_getwidth (to_regexp t) = Ok (1, 1) /\ re_compile (to_regexp t) = Ok re) ->
     let r := run h (Earley_NoLex___init__ lc pc) o w in
     exists conf,
       trace r = [NewEarleyParser conf] /\
       Forall2 (fun '(n, x, a) '(n', x', a') => n' = n /\ a' = a)
               (rules pc) (rules conf) /\
       callback conf = callback pc /\ start conf = start pc /\
       result r = match fst (h (NewEarleyParser conf) w) with
                  | Ok _ => Ok tt
                  | Raise e => Raise e
                  end) /\
  (forall cls, cls = Earley \/ cls = Earley_NoLex ->
     Forall (passes_actions pc) (trace (run h (class___init__ cls lc pc) o w))).
Proof.
  split; [|split; [|split]].
  - intros n x a Hin Ha.
    destruct (Nearley_rule_missing (callback pc) (rules pc) n x a Hin Ha) as (a' & Hrs & Ha').
    pose proof (Nearley_NoLex_rule_missing (token_by_name_of (tokens lc)) (callback pc)
                  (rules pc) n x a Hin Ha) as Hrs'.
    split.
    + intros cls [->| ->]; unfold class___init__; cbv zeta.
      * rewrite Nearley___init___run, WithLexer___init___run, Hrs.
        destruct (h (NewLexer _ _) w) as [[l|e] w1]; unfold after; simpl;
          (split; [done|]); repeat constructor; auto.
      * rewrite Nearley_NoLex___init___run. cbv zeta.
        destruct (mapR (Nearley_NoLex_rule _ _) _) as [rs|e]; [done|].
        simpl. split; [done|constructor].
    + intros l w1 Hl. exists a'. split; [|done].
      by rewrite Nearley___init___run, WithLexer___init___run, Hl, Hrs.
  - intros l w1 Hl. cbv zeta.
    rewrite Earley___init___run, WithLexer___init___run, Hl. unfold after; simpl.
    exists {| rules := map (fun '(n, x, a) => (n, Earley__prepare_expansion x, a)) (rules pc);
              callback := callback pc; start := start pc |}.
    split; [by destruct (h (NewEarleyParser _) w1) as [[p|e] w2]|].
    split; [apply Earley_rules_translated|].
    simpl. split; [done|]. split; [done|].
    by destruct (h (NewEarleyParser _) w1) as [[p|e] w2].
  - intros Hw. cbv zeta. rewrite Earley_NoLex___init___run. cbv zeta.
    destruct (Earley_NoLex_rules_translate _ pc Hw) as (rs & Hrs). rewrite Hrs.
    exists {| rules := rs; callback := callback pc; start := start pc |}.
    split; [by destruct (h (NewEarleyParser _) w) as [[p|e] w2]|].
    split; [by apply (Earley_NoLex_rules_translated _ _ _ Hrs)|].
    simpl. split; [done|]. split; [done|].
    by destruct (h (NewEarleyParser _) w) as [[p|e] w2].
  - intros cls [->| ->]; unfold class___init__.
    + rewrite Earley___init___run, WithLexer___init___run.
      destruct (h (NewLexer _ _) w) as [[l|e] w1]; unfold after; simpl;
        [|by repeat constructor].
      destruct (h (NewEarleyParser _) w1) as [[p|e] w2]; simpl;
        repeat constructor; simpl; auto using Earley_rule_actions.
    + rewrite Earley_NoLex___init___run. cbv zeta.
      destruct (mapR (Earley_NoLex_rule _) _) as [rs|e] eqn:Hmap; [|constructor].
      apply Earley_NoLex_rule_actions in Hmap.
      destruct (h _ w) as [[p|e] w2]; by repeat constructor.
Qed.

Lemma actions_resolved_at_construction_witness :
  (exists a', result (Toy.fresh Nearley Toy.lexer_conf ToyScannerless.missing_action)
                = Raise (AttributeError a') /\
              callback ToyScannerless.missing_action !! a' = None) /\
  (exists conf,
     trace (Toy.fresh Earley Toy.lexer_conf ToyScannerless.missing_action)
       = [@NewLexer Toy.collaborators [("A", "a"); ("B", "b")] ["WS"];
          @NewEarleyParser Toy.collaborators conf] /\
     map snd (rules conf) = ["missing"; "g"] /\
     callback conf = callback ToyScannerless.missing_action /\
     result (Toy.fresh Earley Toy.lexer_conf ToyScannerless.missing_action) = Ok tt).
Proof.
  pose proof (@actions_resolved_at_construction Toy.collaborators nat Toy.handler
                Toy.lexer_conf ToyScannerless.missing_action ∅ 0%nat)
    as (Hnearley & Hearley & _ & _).
  split.
  - exact (proj2 (Hnearley "start" ["A"] "missing" (or_introl eq_refl) eq_refl)
             ["A"; "B"] 1%nat eq_refl).
  - pose proof (Hearley ["A"; "B"] 1%nat eq_refl) as Hcall. cbv zeta in Hcall.
    destruct Hcall as ([rs cb st] & Htrace & Hrules & Hcb & _ & Hres).
    exists (@Build_ParserConf Toy.collaborators PySym rs cb st).
    split; [exact Htrace|]. split; [|split; [exact Hcb|exact Hres]].
    simpl in Hrules |- *.
    inversion Hrules as [|r1 [[n1 x1] a1] l1 l1' H1 Hrest]; subst.
    inversion Hrest as [|r2 [[n2 x2] a2] l2 l2' H2 Hnil]; subst.
    inversion Hnil; subst.
    destruct H1 as (_ & _ & ->), H2 as (_ & _ & ->). reflexivity.
Defined.

(** * Further properties of the frontends *)

(** ** Definitions *)

(** The compiled matcher [re] of a terminal whose (last) token definition
    has width exactly (1, 1). *)
Definition width_1_terminal `{C : Collaborators}
    (tbn : gmap string TokenDef) (sym : string) (re : CompiledRe) : Prop :=
  exists t,
    tbn !! sym = Some t /\ sre_getwidth (to_regexp t) = Ok (1, 1) /\
    re_compile (to_regexp t) = Ok re.

(** How a scannerless frontend renders a symbol: [wrap sym re] is the tuple
    it builds for a terminal. *)
Definition scannerless_symbol `{C : Collaborators}
    (wrap : string -> CompiledRe -> PySym)
    (tbn : gmap string TokenDef) (sym : string) (s : PySym) : Prop :=
  if is_terminal sym
  then exists re, width_1_terminal tbn sym re /\ s = wrap sym re
  else s = SymStr sym.

(** [(re.compile(regexp).match,)] and [(sym, re.compile(regexp))] *)
Definition Earley_NoLex_wrap `{C : Collaborators} (sym : string) (re : CompiledRe) : PySym :=
  SymTuple [PMatch re].

Definition Nearley_NoLex_wrap `{C : Collaborators} (sym : string) (re : CompiledRe) : PySym :=
  SymTuple [PStr sym; PRegex re].

(** The call materializes a token stream. *)
Definition is_ListOf `{C : Collaborators} (c : Cmd) : bool :=
  match c with ListOf _ => true | _ => false end.

(** Collaborators as in [Toy], except that they raise on chosen inputs: the
    lexer constructor on an empty token table, a lexer on the text [?], an
    engine on the input [!]. *)
Module ToyFailing.

Definition bang (input : @ChartInput Toy.collaborators) : bool :=
  match input with
  | InText text => bool_decide (text = "!")
  | InTokens l => bool_decide (l = ["!"])
  end.

Definition handler : @Handler Toy.collaborators nat :=
  fun c n =>
    match c return Result (@Answer Toy.collaborators c) * nat with
    | NewLexer [] _ => (Raise (Foreign "no tokens"), S n)
    | LexerLex _ "?" => (Raise (Foreign "UnexpectedInput"), S n)
    | ContextualLexerLex _ "?" => (Raise (Foreign "UnexpectedInput"), S n)
    | EarleyParse _ input =>
        if bang input then (Raise (Foreign "ParseError"), S n)
        else Toy.handler (@EarleyParse Toy.collaborators "start" input) n
    | NearleyParse _ input =>
        if bang input then (Raise (Foreign "ParseError"), S n)
        else Toy.handler (@NearleyParse Toy.collaborators "start" input) n
    | c' => Toy.handler c' n
    end.

Definition no_tokens : @LexerConf Toy.collaborators :=
  @Build_LexerConf Toy.collaborators [] [] None.

(** Two definitions of the token [A]: the later one has width (2, 2). *)
Definition redefined : @LexerConf Toy.collaborators :=
  @Build_LexerConf Toy.collaborators [("A", "a"); ("B", "b"); ("A", "aa")] [] None.

Definition fresh (cls : FrontendClass) (lc : @LexerConf Toy.collaborators)
    (pc : @ParserConf Toy.collaborators string) : @Outcome Toy.collaborators nat unit :=
  run handler (class___init__ cls lc pc) ∅ 0%nat.

Definition parse_on (cls : FrontendClass) (r : @Outcome Toy.collaborators nat unit)
    (text : string) : @Outcome Toy.collaborators nat (list string) :=
  run handler (class_parse cls text) (obj r) (world r).

End ToyFailing.

(** ** The token table of the scannerless frontends *)

Lemma token_by_name_of_snoc `{C : Collaborators} (toks : list TokenDef) (t : TokenDef) :
  token_by_name_of (toks ++ [t]) = <[tokendef_name t := t]> (token_by_name_of toks).
Proof. unfold token_by_name_of. by rewrite foldl_snoc. Qed.

(** X1: in the table [{t.name: t for t in lexer_conf.tokens}] a name is
    bound to the last token definition of the list that carries it, and to
    nothing when no definition carries it: a later definition silently
    replaces an earlier one of the same name. *)
Theorem token_by_name_last_wins `{C : Collaborators} (toks : list TokenDef) (name : string) :
  token_by_name_of toks !! name = last (filter (fun t => tokendef_name t = name) toks).
Proof.
  induction toks as [|t toks IH] using rev_ind; [done|].
  rewrite token_by_name_of_snoc, filter_app, filter_cons, filter_nil.
  destruct (decide (tokendef_name t = name)) as [<-|Hne].
  - by rewrite lookup_insert_eq, last_snoc.
  - by rewrite lookup_insert_ne, app_nil_r.
Qed.

(** ** The lexing pipeline and the LALR frontends *)

Section Pipelines.
Context `{C : Collaborators}.
Context {W : Type}.
Implicit Types (h : Handler W) (o : gmap string Value) (w : W).

Lemma list_lex_run_full h o w l lc text :
  o !! "lexer" = Some (VLexer l) ->
  o !! "lexer_conf" = Some (VLexerConf lc) ->
  run h (list_lex text) o w =
  match h (LexerLex l text) w with
  | (Raise e, w1) => {| result := Raise e; obj := o; world := w1; trace := [LexerLex l text] |}
  | (Ok s, w1) =>
      match postlex lc with
      | None =>
          let '(r, w2) := h (ListOf s) w1 in
          {| result := r; obj := o; world := w2; trace := [LexerLex l text; ListOf s] |}
      | Some pl =>
          match h (PostLexProcess pl s) w1 with
          | (Raise e, w2) =>
              {| result := Raise e; obj := o; world := w2;
                 trace := [LexerLex l text; PostLexProcess pl s] |}
          | (Ok s', w2) =>
              let '(r, w3) := h (ListOf s') w2 in
              {| result := r; obj := o; world := w3;
                 trace := [LexerLex l text; PostLexProcess pl s; ListOf s'] |}
          end
      end
  end.
Proof.
  intros Hl Hlc. rewrite list_lex_run, (WithLexer_lex_run h o w l lc text Hl Hlc).
  destruct (h (LexerLex l text) w) as [[s|e] w1]; [|done].
  destruct (postlex lc) as [pl|].
  - destruct (h (PostLexProcess pl s) w1) as [[s'|e] w2]; [|done].
    unfold after; simpl. by destruct (h (ListOf s') w2) as [[toks|e] w3].
  - unfold after; simpl. by destruct (h (ListOf s) w1) as [[toks|e] w2].
Qed.

Lemma LALR_init_attrs h lc pc o w :
  result (run h (LALR___init__ lc pc) o w) = Ok tt ->
  exists l w1 p w2,
    h (NewLexer (tokens lc) (ignore lc)) w = (Ok l, w1) /\
    h (NewLalrParser pc) w1 = (Ok p, w2) /\
    obj (run h (LALR___init__ lc pc) o w) !! "lexer" = Some (VLexer l) /\
    obj (run h (LALR___init__ lc pc) o w) !! "lexer_conf" = Some (VLexerConf lc) /\
    obj (run h (LALR___init__ lc pc) o w) !! "parser" = Some (VLalrParser p).
Proof.
  rewrite LALR___init___run, WithLexer___init___run.
  destruct (h (NewLexer _ _) w) as [[l|e] w1]; unfold after; simpl; [|discriminate].
  destruct (h (NewLalrParser pc) w1) as [[p|e] w2] eqn:Hp; simpl; [|discriminate].
  intros _. exists l, w1, p, w2. by simplify_map_eq.
Qed.

Lemma LALR_parse_run h o w p text :
  o !! "parser" = Some (VLalrParser p) ->
  run h (LALR_parse text) o w =
  after (run h (list_lex text) o w) (fun toks o' w' =>
    let '(r, w2) := h (LalrParse p (SeqList toks) None) w' in
    {| result := r; obj := o'; world := w2; trace := [LalrParse p (SeqList toks) None] |}).
Proof.
  intros Hp. pose proof (list_lex_obj h o w text) as Ho.
  unfold LALR_parse. rewrite run_bind. unfold after.
  destruct (run h (list_lex text) o w) as [[toks|e] oo ww tr]; simpl in *; subst; [|done].
  rewrite Hp; simpl. by destruct (h _ ww) as [[t|e] w2].
Qed.

Lemma LALR_ContextualLexer_parse_run h o w l lc p text :
  o !! "lexer" = Some (VContextualLexer l) ->
  o !! "lexer_conf" = Some (VLexerConf lc) ->
  o !! "parser" = Some (VLalrParser p) ->
  run h (LALR_ContextualLexer_parse text) o w =
  match h (ContextualLexerLex l text) w with
  | (Raise e, w1) =>
      {| result := Raise e; obj := o; world := w1; trace := [ContextualLexerLex l text] |}
  | (Ok s, w1) =>
      match postlex lc with
      | None =>
          let '(r, w2) := h (LalrParse p (SeqStream s) (Some l)) w1 in
          {| result := r; obj := o; world := w2;
             trace := [ContextualLexerLex l text; LalrParse p (SeqStream s) (Some l)] |}
      | Some pl =>
          match h (PostLexProcess pl s) w1 with
          | (Raise e, w2) =>
              {| result := Raise e; obj := o; world := w2;
                 trace := [ContextualLexerLex l text; PostLexProcess pl s] |}
          | (Ok s', w2) =>
              let '(r, w3) := h (LalrParse p (SeqStream s') (Some l)) w2 in
              {| result := r; obj := o; world := w3;
                 trace := [ContextualLexerLex l text; PostLexProcess pl s;
                           LalrParse p (SeqStream s') (Some l)] |}
          end
      end
  end.
Proof.
  intros Hl Hlc Hp. unfold LALR_ContextualLexer_parse; simpl. rewrite Hl; simpl.
  destruct (h (ContextualLexerLex l text) w) as [[s|e] w1]; [|done]. simpl.
  rewrite Hlc; simpl. destruct (postlex lc) as [pl|] eqn:Hpl; simpl.
  - rewrite Hlc; simpl. rewrite Hpl; simpl.
    destruct (h (PostLexProcess pl s) w1) as [[s'|e] w2]; [|done]. simpl.
    rewrite Hp; simpl. rewrite Hl; simpl.
    by destruct (h (LalrParse p (SeqStream s') (Some l)) w2) as [[t|e] w3].
  - rewrite Hp; simpl. rewrite Hl; simpl.
    by destruct (h (LalrParse p (SeqStream s) (Some l)) w1) as [[t|e] w2].
Qed.

End Pipelines.

(** X2: on a constructed frontend built on [WithLexer], [list(self.lex(text))]
    calls the lexer, then the post-lex transform if one is configured, then
    materializes the resulting stream, in this order; an exception raised by
    the lexer or by the transform is passed on unchanged and nothing after
    it is called; otherwise the outcome is that of materializing the
    (transformed) stream. *)
Theorem list_lex_pipeline `{C : Collaborators} {W : Type}
    (h : Handler W) (cls : FrontendClass) (lc : LexerConf) (pc : ParserConf string)
    (o0 : gmap string Value) (w0 : W) :
  with_lexer cls = true ->
  let r0 := run h (class___init__ cls lc pc) o0 w0 in
  result r0 = Ok tt ->
  exists l,
    obj r0 !! "lexer" = Some (VLexer l) /\
    forall text w,
      let r := run h (list_lex text) (obj r0) w in
      match h (LexerLex l text) w with
      | (Raise e, _) => result r = Raise e /\ trace r = [LexerLex l text]
      | (Ok s, w1) =>
          match postlex lc with
          | None =>
              result r = fst (h (ListOf s) w1) /\ trace r = [LexerLex l text; ListOf s]
          | Some pl =>
              match h (PostLexProcess pl s) w1 with
              | (Raise e, _) =>
                  result r = Raise e /\ trace r = [LexerLex l text; PostLexProcess pl s]
              | (Ok s', w2) =>
                  result r = fst (h (ListOf s') w2) /\
                  trace r = [LexerLex l text; PostLexProcess pl s; ListOf s']
              end
          end
      end.
Proof.
  intros Hcls r0 Hok. unfold r0 in *. clear r0.
  destruct (with_lexer_init_attrs h cls lc pc o0 w0 Hcls Hok) as (l & w1 & _ & Hl & Hlc).
  exists l. split; [done|]. intros text w. cbv zeta.
  rewrite (list_lex_run_full h _ w l lc text Hl Hlc).
  destruct (h (LexerLex l text) w) as [[s|e] w2]; [|done].
  destruct (postlex lc) as [pl|].
  - destruct (h (PostLexProcess pl s) w2) as [[s'|e] w3]; [|done].
    by destruct (h (ListOf s') w3) as [r w4].
  - by destruct (h (ListOf s) w2) as [r w3].
Qed.

Lemma list_lex_pipeline_witness :
  let r0 := ToyFailing.fresh Earley Toy.lexer_conf_postlex Toy.parser_conf in
  exists l,
    obj r0 !! "lexer" = Some (@VLexer Toy.collaborators l) /\
    (result (run ToyFailing.handler (@list_lex Toy.collaborators "?") (obj r0) 2%nat)
       = Raise (Foreign "UnexpectedInput") /\
     trace (run ToyFailing.handler (@list_lex Toy.collaborators "?") (obj r0) 2%nat)
       = [@LexerLex Toy.collaborators l "?"]) /\
    (result (run ToyFailing.handler (@list_lex Toy.collaborators "ab") (obj r0) 2%nat)
       = Ok ["a"; "b"] /\
     trace (run ToyFailing.handler (@list_lex Toy.collaborators "ab") (obj r0) 2%nat)
       = [@LexerLex Toy.collaborators l "ab";
          @PostLexProcess Toy.collaborators ["NL"] ["a"; "b"];
          @ListOf Toy.collaborators ["a"; "b"]]).
Proof.
  destruct (@list_lex_pipeline Toy.collaborators nat ToyFailing.handler Earley
              Toy.lexer_conf_postlex Toy.parser_conf ∅ 0%nat eq_refl eq_refl)
    as (l & Hl & Hpipe).
  exists l. split; [exact Hl|]. split.
  - exact (Hpipe "?" 2%nat).
  - exact (Hpipe "ab" 2%nat).
Defined.

(** X3: on a constructed LALR frontend, [parse] first materializes the
    whole token list; if that raises, the exception is passed on and the
    engine is not called; otherwise the engine is called once, on the
    materialized list and without a state setter, and its outcome, a tree
    or an exception, is the outcome of [parse]. *)
Theorem LALR_parse_pipeline `{C : Collaborators} {W : Type}
    (h : Handler W) (lc : LexerConf) (pc : ParserConf string)
    (o0 : gmap string Value) (w0 : W) :
  let r0 := run h (LALR___init__ lc pc) o0 w0 in
  result r0 = Ok tt ->
  exists l w1 p w2,
    h (NewLexer (tokens lc) (ignore lc)) w0 = (Ok l, w1) /\
    h (NewLalrParser pc) w1 = (Ok p, w2) /\
    forall text w,
      let rl := run h (list_lex text) (obj r0) w in
      let r := run h (LALR_parse text) (obj r0) w in
      match result rl with
      | Raise e => result r = Raise e /\ trace r = trace rl
      | Ok toks =>
          result r = fst (h (LalrParse p (SeqList toks) None) (world rl)) /\
          trace r = (trace rl ++ [LalrParse p (SeqList toks) None])%list
      end.
Proof.
  intros r0 Hok. unfold r0 in *. clear r0.
  destruct (LALR_init_attrs h lc pc o0 w0 Hok) as (l & w1 & p & w2 & Hl & Hp & _ & _ & Hparser).
  exists l, w1, p, w2. split; [done|]. split; [done|]. intros text w. cbv zeta.
  rewrite (LALR_parse_run h _ w p text Hparser). unfold after.
  destruct (run h (list_lex text) _ w) as [[toks|e] oo ww tr]; simpl; [|done].
  by destruct (h (LalrParse p (SeqList toks) None) ww) as [r w3].
Qed.

Lemma LALR_parse_pipeline_witness :
  let r0 := ToyFailing.fresh LALR Toy.lexer_conf Toy.parser_conf in
  (result (ToyFailing.parse_on LALR r0 "?") = Raise (Foreign "UnexpectedInput") /\
   trace (ToyFailing.parse_on LALR r0 "?")
     = trace (run ToyFailing.handler (@list_lex Toy.collaborators "?") (obj r0) 2%nat)) /\
  result (ToyFailing.parse_on LALR r0 "ab") = Ok ["a"; "b"].
Proof.
  destruct (@LALR_parse_pipeline Toy.collaborators nat ToyFailing.handler
              Toy.lexer_conf Toy.parser_conf ∅ 0%nat eq_refl)
    as (l & w1 & p & w2 & Hl & Hp & Hpipe).
  injection Hp as <- <-. split.
  - exact (Hpipe "?" 2%nat).
  - exact (proj1 (Hpipe "ab" 2%nat)).
Defined.

(** X4: on a constructed contextual-lexing LALR frontend, [parse] hands the
    engine the lexer's stream itself (transformed by the post-lex transform
    when one is configured), never a materialized list, together with the
    state setter of the very lexer that produces the stream; an exception of
    the lexer or of the transform is passed on without calling the engine,
    and the engine's outcome is the outcome of [parse]. *)
Theorem LALR_ContextualLexer_parse_pipeline `{C : Collaborators} {W : Type}
    (h : Handler W) (lc : LexerConf) (pc : ParserConf string)
    (o0 : gmap string Value) (w0 : W) :
  let r0 := run h (LALR_ContextualLexer___init__ lc pc) o0 w0 in
  result r0 = Ok tt ->
  exists p l,
    obj r0 !! "parser" = Some (VLalrParser p) /\
    obj r0 !! "lexer" = Some (VContextualLexer l) /\
    forall text w,
      let r := run h (LALR_ContextualLexer_parse text) (obj r0) w in
      Forall (fun c => is_ListOf c = false) (trace r) /\
      match h (ContextualLexerLex l text) w with
      | (Raise e, _) => result r = Raise e /\ trace r = [ContextualLexerLex l text]
      | (Ok s, w1) =>
          match postlex lc with
          | None =>
              result r = fst (h (LalrParse p (SeqStream s) (Some l)) w1) /\
              trace r = [ContextualLexerLex l text; LalrParse p (SeqStream s) (Some l)]
          | Some pl =>
              match h (PostLexProcess pl s) w1 with
              | (Raise e, _) =>
                  result r = Raise e /\
                  trace r = [ContextualLexerLex l text; PostLexProcess pl s]
              | (Ok s', w2) =>
                  result r = fst (h (LalrParse p (SeqStream s') (Some l)) w2) /\
                  trace r = [ContextualLexerLex l text; PostLexProcess pl s;
                             LalrParse p (SeqStream s') (Some l)]
              end
          end
      end.
Proof.
  intros r0 Hok. unfold r0 in *. clear r0.
  rewrite LALR_ContextualLexer___init___run in *. cbv zeta in *.
  destruct (h (NewLalrParser pc) w0) as [[p|e] w1]; [|discriminate].
  destruct (h (NewContextualLexer _ _ _ _) w1) as [[l|e] w2]; [|discriminate].
  exists p, l. cbn [obj].
  assert (forall o : gmap string Value,
            <["lexer" := VContextualLexer l]> (<["parser" := VLalrParser p]> o) !! "parser"
            = Some (VLalrParser p)) as Hparser by (intros; by simplify_map_eq).
  split; [apply Hparser|]. split; [by rewrite lookup_insert_eq|].
  intros text w. cbv zeta.
  rewrite (LALR_ContextualLexer_parse_run h _ w l lc p text);
    [|by rewrite lookup_insert_eq|by simplify_map_eq|apply Hparser].
  destruct (h (ContextualLexerLex l text) w) as [[s|e] w3]; [|by repeat constructor].
  destruct (postlex lc) as [pl|].
  - destruct (h (PostLexProcess pl s) w3) as [[s'|e] w4]; [|by repeat constructor].
    destruct (h (LalrParse _ _ _) _) as [r w5].
    by repeat constructor.
  - destruct (h (LalrParse _ _ _) _) as [r w4].
    by repeat constructor.
Qed.

Lemma LALR_ContextualLexer_parse_pipeline_witness :
  let r0 := ToyFailing.fresh LALR_ContextualLexer Toy.lexer_conf_postlex Toy.parser_conf in
  exists p l,
    obj r0 !! "parser" = Some (@VLalrParser Toy.collaborators p) /\
    obj r0 !! "lexer" = Some (@VContextualLexer Toy.collaborators l) /\
    result (ToyFailing.parse_on LALR_ContextualLexer r0 "?")
      = Raise (Foreign "UnexpectedInput") /\
    trace (ToyFailing.parse_on LALR_ContextualLexer r0 "ab")
      = [@ContextualLexerLex Toy.collaborators l "ab";
         @PostLexProcess Toy.collaborators ["NL"] ["a"; "b"];
         @LalrParse Toy.collaborators p
           (@SeqStream Toy.collaborators (["a"; "b"] : list string)) (Some l)].
Proof.
  assert (result (run ToyFailing.handler
                    (@LALR_ContextualLexer___init__ Toy.collaborators
                       Toy.lexer_conf_postlex Toy.parser_conf) ∅ 0%nat) = Ok tt) as Hok
    by (vm_compute; reflexivity).
  pose proof (@LALR_ContextualLexer_parse_pipeline Toy.collaborators nat ToyFailing.handler
                Toy.lexer_conf_postlex Toy.parser_conf ∅ 0%nat Hok) as Hthm.
  destruct Hthm as (p & l & Hp & Hl & Hpipe).
  exists p, l. split; [exact Hp|]. split; [exact Hl|].
  pose proof (Hpipe "?" 2%nat) as Hbad. pose proof (Hpipe "ab" 2%nat) as Hgood.
  cbv zeta in Hbad, Hgood. destruct Hbad as [_ Hbad], Hgood as [_ Hgood]. split.
  - exact (proj1 Hbad).
  - exact (proj2 Hgood).
Defined.

(** ** Exceptions of the collaborators *)

Section PassThrough.
Context `{C : Collaborators}.
Context {W : Type}.
Implicit Types (h : Handler W) (o : gmap string Value) (w : W).

Lemma Earley_NoLex_parse_raise h o w text p e w' :
  o !! "parser" = Some (VEarleyParser p) ->
  h (EarleyParse p (InText text)) w = (Raise e, w') ->
  result (run h (Earley_NoLex_parse text) o w) = Raise e.
Proof.
  intros Hp Hcall. unfold Earley_NoLex_parse; simpl. rewrite Hp; simpl. by rewrite Hcall.
Qed.

Lemma Nearley_NoLex_parse_raise h o w text p e w' :
  o !! "parser" = Some (VNearleyParser p) ->
  h (NearleyParse p (InText text)) w = (Raise e, w') ->
  result (run h (Nearley_NoLex_parse text) o w) = Raise e.
Proof.
  intros Hp Hcall. unfold Nearley_NoLex_parse; simpl. rewrite Hp; simpl. by rewrite Hcall.
Qed.

Lemma Earley_parse_raise h o w text p toks e w' :
  o !! "parser" = Some (VEarleyParser p) ->
  result (run h (list_lex text) o w) = Ok toks ->
  h (EarleyParse p (InTokens toks)) (world (run h (list_lex text) o w)) = (Raise e, w') ->
  result (run h (Earley_parse text) o w) = Raise e.
Proof.
  intros Hp Hlex Hcall. pose proof (list_lex_obj h o w text) as Ho.
  unfold Earley_parse. rewrite run_bind. unfold after.
  destruct (run h (list_lex text) o w) as [rr oo ww tr]; simpl in *; subst.
  rewrite Hp; simpl. by rewrite Hcall.
Qed.

Lemma Nearley_parse_raise h o w text p toks e w' :
  o !! "parser" = Some (VNearleyParser p) ->
  result (run h (list_lex text) o w) = Ok toks ->
  h (NearleyParse p (InTokens toks)) (world (run h (list_lex text) o w)) = (Raise e, w') ->
  result (run h (Nearley_parse text) o w) = Raise e.
Proof.
  intros Hp Hlex Hcall. pose proof (list_lex_obj h o w text) as Ho.
  unfold Nearley_parse. rewrite run_bind. unfold after.
  destruct (run h (list_lex text) o w) as [rr oo ww tr]; simpl in *; subst.
  rewrite Hp; simpl. by rewrite Hcall.
Qed.

Lemma lex_failure_ends_parse {A} h o w text e (k : list Token -> Prog A) :
  result (run h (list_lex text) o w) = Raise e ->
  result (run h (do toks <- list_lex text; k toks) o w) = Raise e /\
  trace (run h (do toks <- list_lex text; k toks) o w) = trace (run h (list_lex text) o w).
Proof. intros Hlex. rewrite run_bind. unfold after. by rewrite Hlex. Qed.

End PassThrough.

(** X5: the chart-engine frontends add no recovery: an exception raised by
    the engine call of [parse] is the exception [parse] raises; and in the
    lexed ones (Nearley, Earley), an exception raised while the token list
    is materialized is passed on with no call made after it, so the engine
    is not called. *)
Theorem chart_parse_errors_pass_through `{C : Collaborators} {W : Type}
    (h : Handler W) (cls : FrontendClass) (o : gmap string Value) (w : W)
    (text : string) (e : exn) :
  chart_engine cls = true ->
  (forall w', engine_call h cls o w text = Some (Raise e, w') ->
     result (run h (class_parse cls text) o w) = Raise e) /\
  (with_lexer cls = true ->
   result (run h (list_lex text) o w) = Raise e ->
   result (run h (class_parse cls text) o w) = Raise e /\
   trace (run h (class_parse cls text) o w) = trace (run h (list_lex text) o w)).
Proof.
  intros Hcls. split.
  - intros w' Hcall. unfold engine_call in Hcall.
    destruct cls; try discriminate Hcls; unfold class_parse;
      destruct (o !! "parser") as [[]|] eqn:Hp; try discriminate Hcall.
    + destruct (result (run h (list_lex text) o w)) as [toks|e'] eqn:Hlex; [|discriminate].
      injection Hcall as Hcall. by eapply Nearley_parse_raise.
    + destruct (result (run h (list_lex text) o w)) as [toks|e'] eqn:Hlex; [|discriminate].
      injection Hcall as Hcall. by eapply Earley_parse_raise.
    + injection Hcall as Hcall. by eapply Nearley_NoLex_parse_raise.
    + injection Hcall as Hcall. by eapply Earley_NoLex_parse_raise.
  - intros Hlexed Hlex.
    destruct cls; try discriminate Hcls; try discriminate Hlexed; unfold class_parse.
    + by apply lex_failure_ends_parse.
    + by apply lex_failure_ends_parse.
Qed.

Lemma chart_parse_errors_pass_through_witness :
  result (ToyFailing.parse_on Earley_NoLex
            (ToyFailing.fresh Earley_NoLex Toy.lexer_conf Toy.parser_conf) "!")
    = Raise (Foreign "ParseError") /\
  (result (ToyFailing.parse_on Nearley
             (ToyFailing.fresh Nearley Toy.lexer_conf Toy.parser_conf) "?")
     = Raise (Foreign "UnexpectedInput") /\
   trace (ToyFailing.parse_on Nearley
            (ToyFailing.fresh Nearley Toy.lexer_conf Toy.parser_conf) "?")
     = trace (run ToyFailing.handler (@list_lex Toy.collaborators "?")
                (obj (ToyFailing.fresh Nearley Toy.lexer_conf Toy.parser_conf)) 2%nat)).
Proof.
  split.
  - apply (proj1 (@chart_parse_errors_pass_through Toy.collaborators nat ToyFailing.handler
             Earley_NoLex
             (obj (ToyFailing.fresh Earley_NoLex Toy.lexer_conf Toy.parser_conf)) 1%nat
             "!" (Foreign "ParseError") eq_refl) 2%nat).
    vm_compute. reflexivity.
  - apply (proj2 (@chart_parse_errors_pass_through Toy.collaborators nat ToyFailing.handler
             Nearley
             (obj (ToyFailing.fresh Nearley Toy.lexer_conf Toy.parser_conf)) 2%nat
             "?" (Foreign "UnexpectedInput") eq_refl) eq_refl).
    vm_compute. reflexivity.
Defined.

(** ** Construction when the lexer cannot be built *)

(** X6: in the three frontends built on [WithLexer] (LALR, Nearley,
    Earley), when the lexer's constructor raises, construction raises that
    exception at once: the lexer's constructor is the only call made, no
    engine is built, no action is looked up, and the only attribute
    assigned is [lexer_conf]. *)
Theorem with_lexer_init_lexer_failure `{C : Collaborators} {W : Type}
    (h : Handler W) (cls : FrontendClass) (lc : LexerConf) (pc : ParserConf string)
    (o : gmap string Value) (w w1 : W) (e : exn) :
  with_lexer cls = true ->
  h (NewLexer (tokens lc) (ignore lc)) w = (Raise e, w1) ->
  run h (class___init__ cls lc pc) o w =
  {| result := Raise e; obj := <["lexer_conf" := VLexerConf lc]> o; world := w1;
     trace := [NewLexer (tokens lc) (ignore lc)] |}.
Proof.
  intros Hcls Hl. destruct cls; try discriminate Hcls; unfold class___init__.
  - by rewrite LALR___init___run, WithLexer___init___run, Hl.
  - by rewrite Nearley___init___run, WithLexer___init___run, Hl.
  - by rewrite Earley___init___run, WithLexer___init___run, Hl.
Qed.

Lemma with_lexer_init_lexer_failure_witness :
  ToyFailing.fresh Nearley ToyFailing.no_tokens ToyScannerless.missing_action =
  {| result := Raise (Foreign "no tokens");
     obj := <["lexer_conf" := @VLexerConf Toy.collaborators ToyFailing.no_tokens]> ∅;
     world := 1%nat;
     trace := [@NewLexer Toy.collaborators [] []] |}.
Proof.
  exact (@with_lexer_init_lexer_failure Toy.collaborators nat ToyFailing.handler Nearley
           ToyFailing.no_tokens ToyScannerless.missing_action ∅ 0%nat 1%nat
           (Foreign "no tokens") eq_refl eq_refl).
Defined.

(** ** What the engines are given after a successful construction *)

Section Translated.
Context `{C : Collaborators}.
Context {W : Type}.
Implicit Types (h : Handler W) (o : gmap string Value) (w : W).
Implicit Types (tbn : gmap string TokenDef) (cb : gmap string Callable).

Lemma mapR_Ok_Forall2 {A B} (f : A -> Result B) (l : list A) (ys : list B) :
  mapR f l = Ok ys -> Forall2 (fun x y => f x = Ok y) l ys.
Proof.
  revert ys; induction l as [|x l IH]; simpl; intros ys Hys.
  - injection Hys as <-. constructor.
  - destruct (f x) as [y|e] eqn:Hx; [|done].
    destruct (mapR f l) as [ys'|e]; [|done].
    injection Hys as <-. constructor; auto.
Qed.

Lemma mapR_Raise_inv {A B} (f : A -> Result B) (l : list A) (e : exn) :
  mapR f l = Raise e -> exists x, In x l /\ f x = Raise e.
Proof.
  induction l as [|x l IH]; simpl; [done|].
  destruct (f x) as [y|e'] eqn:Hx.
  - destruct (mapR f l) as [ys|e']; [done|].
    intros [= ->]. destruct (IH eq_refl) as (x' & Hin & Hx'). eauto.
  - intros [= ->]. eauto.
Qed.

Lemma width_checked_Ok tbn sym regexp re :
  width_checked tbn sym = Ok (regexp, re) -> width_1_terminal tbn sym re.
Proof.
  unfold width_checked, width_1_terminal.
  destruct (tbn !! sym) as [t|]; [|done].
  destruct (sre_getwidth (to_regexp t)) as [width|e] eqn:Hw; [|done].
  destruct (decide (width = (1, 1))) as [->|]; [|done].
  destruct (re_compile (to_regexp t)) as [re'|e] eqn:Hre; [|done].
  intros [= _ <-]. by exists t.
Qed.

Lemma Earley_NoLex_symbol_Ok tbn sym s :
  Earley_NoLex_symbol tbn sym = Ok s -> scannerless_symbol Earley_NoLex_wrap tbn sym s.
Proof.
  unfold Earley_NoLex_symbol, scannerless_symbol, Earley_NoLex_wrap.
  destruct (is_terminal sym); [|by intros [= <-]].
  destruct (width_checked tbn sym) as [[regexp re]|e] eqn:Hw; [|done].
  intros [= <-]. exists re. split; [by eapply width_checked_Ok|done].
Qed.

Lemma Nearley_NoLex_symbol_Ok tbn sym s :
  Nearley_NoLex_symbol tbn sym = Ok s -> scannerless_symbol Nearley_NoLex_wrap tbn sym s.
Proof.
  unfold Nearley_NoLex_symbol, scannerless_symbol, Nearley_NoLex_wrap.
  destruct (is_terminal sym); [|by intros [= <-]].
  destruct (width_checked tbn sym) as [[regexp re]|e] eqn:Hw; [|done].
  intros [= <-]. exists re. split; [by eapply width_checked_Ok|done].
Qed.

Lemma Forall2_impl' {A B} (P Q : A -> B -> Prop) (l : list A) (k : list B) :
  (forall x y, P x y -> Q x y) -> Forall2 P l k -> Forall2 Q l k.
Proof. intros HPQ; induction 1; constructor; auto. Qed.

End Translated.

(** X7: when the construction of the lexed Nearley frontend succeeds, the
    lexer was built first and the engine then received, with the start
    symbol, one rule dictionary per rule of the parser configuration, in
    the same order, each with the rule's name, its translated expansion,
    and as [postprocess] the attribute of the callback object named by the
    rule's action. *)
Theorem Nearley_init_rules `{C : Collaborators} {W : Type}
    (h : Handler W) (lc : LexerConf) (pc : ParserConf string)
    (o : gmap string Value) (w : W) :
  let r := run h (Nearley___init__ lc pc) o w in
  result r = Ok tt ->
  exists rs p,
    trace r = [NewLexer (tokens lc) (ignore lc); NewNearleyParser rs (start pc)] /\
    obj r !! "parser" = Some (VNearleyParser p) /\
    Forall2 (fun '(n, x, a) r' =>
               nr_name r' = n /\
               nr_symbols r' = Nearley__prepare_expansion x /\
               callback pc !! a = Some (nr_postprocess r'))
            (rules pc) rs.
Proof.
  intros r. unfold r. clear r.
  rewrite Nearley___init___run, WithLexer___init___run.
  destruct (h (NewLexer _ _) w) as [[l|e] w1]; unfold after; simpl; [|discriminate].
  destruct (mapR (Nearley_rule (callback pc)) (rules pc)) as [rs|e] eqn:Hrs; simpl;
    [|discriminate].
  destruct (h (NewNearleyParser _ _) w1) as [[p|e] w2]; simpl; [|discriminate].
  intros _. exists rs, p. split; [done|]. split; [by rewrite lookup_insert_eq|].
  apply mapR_Ok_Forall2 in Hrs. revert Hrs. apply Forall2_impl'.
  intros [[n x] a] r'. unfold Nearley_rule.
  destruct (callback pc !! a) as [f|]; [|done]. by intros [= <-].
Qed.

Lemma Nearley_init_rules_witness :
  exists rs p,
    trace (Toy.fresh Nearley Toy.lexer_conf Toy.parser_conf) =
      [@NewLexer Toy.collaborators [("A", "a"); ("B", "b")] ["WS"];
       @NewNearleyParser Toy.collaborators rs "start"] /\
    obj (Toy.fresh Nearley Toy.lexer_conf Toy.parser_conf) !! "parser"
      = Some (@VNearleyParser Toy.collaborators p) /\
    map (@nr_postprocess Toy.collaborators) rs = [0%nat; 1%nat].
Proof.
  destruct (@Nearley_init_rules Toy.collaborators nat Toy.handler
              Toy.lexer_conf Toy.parser_conf ∅ 0%nat eq_refl)
    as (rs & p & Htrace & Hp & Hrules).
  exists rs, p. split; [exact Htrace|]. split; [exact Hp|].
  inversion Hrules as [|r1 r1' l1 l1' H1 Hrest]; subst.
  inversion Hrest as [|r2 r2' l2 l2' H2 Hnil]; subst.
  inversion Hnil; subst.
  destruct H1 as (_ & _ & H1), H2 as (_ & _ & H2).
  change (Some 0%nat = Some (nr_postprocess r1')) in H1.
  change (Some 1%nat = Some (nr_postprocess r2')) in H2.
  injection H1 as E1. injection H2 as E2. simpl. by rewrite <- E1, <- E2.
Defined.

(** X8: when the construction of Earley_NoLex succeeds, no lexer was built
    and the engine received the callback object, the start symbol, and one
    rule per rule of the parser configuration, in the same order, with the
    same name and action; in its expansion every nonterminal is the bare
    name and every terminal is the one-element tuple holding the matcher
    compiled from the terminal's (last) token definition, whose width was
    found to be exactly (1, 1). *)
Theorem Earley_NoLex_init_rules `{C : Collaborators} {W : Type}
    (h : Handler W) (lc : LexerConf) (pc : ParserConf string)
    (o : gmap string Value) (w : W) :
  let r := run h (Earley_NoLex___init__ lc pc) o w in
  result r = Ok tt ->
  exists rs p,
    trace r = [NewEarleyParser
                 {| rules := rs; callback := callback pc; start := start pc |}] /\
    obj r !! "parser" = Some (VEarleyParser p) /\
    Forall2 (fun '(n, x, a) '(n', x', a') =>
               n' = n /\ a' = a /\
               Forall2 (scannerless_symbol Earley_NoLex_wrap
                          (token_by_name_of (tokens lc))) x x')
            (rules pc) rs.
Proof.
  intros r. unfold r. clear r. rewrite Earley_NoLex___init___run. cbv zeta.
  destruct (mapR (Earley_NoLex_rule _) (rules pc)) as [rs|e] eqn:Hrs; [|discriminate].
  destruct (h (NewEarleyParser _) w) as [[p|e] w2]; simpl; [|discriminate].
  intros _. exists rs, p. split; [done|]. split; [by rewrite lookup_insert_eq|].
  apply mapR_Ok_Forall2 in Hrs. revert Hrs. apply Forall2_impl'.
  intros [[n x] a] [[n' x'] a']. unfold Earley_NoLex_rule.
  destruct (mapR (Earley_NoLex_symbol _) x) as [symbols|e] eqn:Hx; [|done].
  intros [= <- <- <-]. split; [done|]. split; [done|].
  apply mapR_Ok_Forall2 in Hx. revert Hx. apply Forall2_impl'.
  intros sym s. apply Earley_NoLex_symbol_Ok.
Qed.

Lemma Earley_NoLex_init_rules_witness :
  exists rs p,
    trace (Toy.fresh Earley_NoLex Toy.lexer_conf Toy.parser_conf) =
      [@NewEarleyParser Toy.collaborators
         (@Build_ParserConf Toy.collaborators PySym rs (callback Toy.parser_conf) "start")] /\
    obj (Toy.fresh Earley_NoLex Toy.lexer_conf Toy.parser_conf) !! "parser"
      = Some (@VEarleyParser Toy.collaborators p) /\
    length rs = 2%nat.
Proof.
  assert (result (run Toy.handler
                    (@Earley_NoLex___init__ Toy.collaborators Toy.lexer_conf Toy.parser_conf)
                    ∅ 0%nat) = Ok tt) as Hok by (vm_compute; reflexivity).
  destruct (@Earley_NoLex_init_rules Toy.collaborators nat Toy.handler
              Toy.lexer_conf Toy.parser_conf ∅ 0%nat Hok)
    as (rs & p & Htrace & Hp & Hrules).
  exists rs, p. split; [exact Htrace|]. split; [exact Hp|].
  by rewrite <- (Forall2_length _ _ _ Hrules).
Defined.

(** X9: when the construction of Nearley_NoLex succeeds, no lexer was built
    and the engine received the start symbol and one rule dictionary per
    rule, in the same order, with the rule's name and, as [postprocess],
    the callback attribute named by its action; in its symbols every
    nonterminal is the bare name and every terminal is the pair of the name
    and the pattern compiled from the terminal's (last) token definition,
    whose width was found to be exactly (1, 1). *)
Theorem Nearley_NoLex_init_rules `{C : Collaborators} {W : Type}
    (h : Handler W) (lc : LexerConf) (pc : ParserConf string)
    (o : gmap string Value) (w : W) :
  let r := run h (Nearley_NoLex___init__ lc pc) o w in
  result r = Ok tt ->
  exists rs p,
    trace r = [NewNearleyParser rs (start pc)] /\
    obj r !! "parser" = Some (VNearleyParser p) /\
    Forall2 (fun '(n, x, a) r' =>
               nr_name r' = n /\
               callback pc !! a = Some (nr_postprocess r') /\
               Forall2 (scannerless_symbol Nearley_NoLex_wrap
                          (token_by_name_of (tokens lc))) x (nr_symbols r'))
            (rules pc) rs.
Proof.
  intros r. unfold r. clear r. rewrite Nearley_NoLex___init___run. cbv zeta.
  destruct (mapR (Nearley_NoLex_rule _ _) (rules pc)) as [rs|e] eqn:Hrs; [|discriminate].
  destruct (h (NewNearleyParser _ _) w) as [[p|e] w2]; simpl; [|discriminate].
  intros _. exists rs, p. split; [done|]. split; [by rewrite lookup_insert_eq|].
  apply mapR_Ok_Forall2 in Hrs. revert Hrs. apply Forall2_impl'.
  intros [[n x] a] r'. unfold Nearley_NoLex_rule.
  destruct (mapR (Nearley_NoLex_symbol _) x) as [symbols|e] eqn:Hx; [|done].
  destruct (callback pc !! a) as [f|]; [|done].
  intros [= <-]. simpl. split; [done|]. split; [done|].
  apply mapR_Ok_Forall2 in Hx. revert Hx. apply Forall2_impl'.
  intros sym s. apply Nearley_NoLex_symbol_Ok.
Qed.

Lemma Nearley_NoLex_init_rules_witness :
  exists rs p,
    trace (Toy.fresh Nearley_NoLex Toy.lexer_conf Toy.parser_conf) =
      [@NewNearleyParser Toy.collaborators rs "start"] /\
    obj (Toy.fresh Nearley_NoLex Toy.lexer_conf Toy.parser_conf) !! "parser"
      = Some (@VNearleyParser Toy.collaborators p) /\
    length rs = 2%nat.
Proof.
  assert (result (run Toy.handler
                    (@Nearley_NoLex___init__ Toy.collaborators Toy.lexer_conf Toy.parser_conf)
                    ∅ 0%nat) = Ok tt) as Hok by (vm_compute; reflexivity).
  destruct (@Nearley_NoLex_init_rules Toy.collaborators nat Toy.handler
              Toy.lexer_conf Toy.parser_conf ∅ 0%nat Hok)
    as (rs & p & Htrace & Hp & Hrules).
  exists rs, p. split; [exact Htrace|]. split; [exact Hp|].
  by rewrite <- (Forall2_length _ _ _ Hrules).
Defined.

(** ** The failures of scannerless construction *)

Section ScannerlessFailures.
Context `{C : Collaborators}.
Context {W : Type}.
Implicit Types (h : Handler W) (o : gmap string Value) (w : W).
Implicit Types (tbn : gmap string TokenDef) (pc : ParserConf string).

(** The regular-expression library raises no grammar error of its own. *)
Definition re_raises_no_GrammarError : Prop :=
  (forall regexp, is_GrammarError (sre_getwidth regexp) = false) /\
  (forall regexp, is_GrammarError (re_compile regexp) = false).

(** The grammar error names [regexp] and [width] truthfully for [sym]. *)
Definition reported tbn (sym regexp : string) (width : Z * Z) : Prop :=
  is_terminal sym = true /\
  exists t,
    tbn !! sym = Some t /\ to_regexp t = regexp /\
    sre_getwidth regexp = Ok width /\ width <> (1, 1).

Lemma width_checked_GrammarError tbn sym regexp width :
  re_raises_no_GrammarError ->
  width_checked tbn sym = Raise (GrammarError regexp width) ->
  exists t,
    tbn !! sym = Some t /\ to_regexp t = regexp /\
    sre_getwidth regexp = Ok width /\ width <> (1, 1).
Proof.
  intros [Hwidth Hcompile]. unfold width_checked.
  destruct (tbn !! sym) as [t|]; [|done].
  specialize (Hwidth (to_regexp t)). specialize (Hcompile (to_regexp t)).
  destruct (sre_getwidth (to_regexp t)) as [width'|e] eqn:Hw.
  - destruct (decide (width' = (1, 1))) as [->|Hne].
    + destruct (re_compile (to_regexp t)) as [re|e]; [done|].
      intros [= ->]. done.
    + intros [= <- <-]. by exists t.
  - intros [= ->]. done.
Qed.

Lemma symbols_GrammarError (f : gmap string TokenDef -> string -> Result PySym)
    tbn x regexp width :
  re_raises_no_GrammarError ->
  (forall sym, f tbn sym = Raise (GrammarError regexp width) ->
     is_terminal sym = true /\ width_checked tbn sym = Raise (GrammarError regexp width)) ->
  mapR (f tbn) x = Raise (GrammarError regexp width) ->
  exists sym, In sym x /\ reported tbn sym regexp width.
Proof.
  intros Hre Hf Hx. apply mapR_Raise_inv in Hx as (sym & Hin & Hsym).
  destruct (Hf sym Hsym) as [Hterm Hw]. exists sym. split; [done|]. split; [done|].
  by apply width_checked_GrammarError.
Qed.

Lemma Earley_NoLex_symbol_GrammarError tbn sym regexp width :
  Earley_NoLex_symbol tbn sym = Raise (GrammarError regexp width) ->
  is_terminal sym = true /\ width_checked tbn sym = Raise (GrammarError regexp width).
Proof.
  unfold Earley_NoLex_symbol. destruct (is_terminal sym); [|done].
  by destruct (width_checked tbn sym) as [[? ?]|e]; [|intros [= ->]].
Qed.

Lemma Nearley_NoLex_symbol_GrammarError tbn sym regexp width :
  Nearley_NoLex_symbol tbn sym = Raise (GrammarError regexp width) ->
  is_terminal sym = true /\ width_checked tbn sym = Raise (GrammarError regexp width).
Proof.
  unfold Nearley_NoLex_symbol. destruct (is_terminal sym); [|done].
  by destruct (width_checked tbn sym) as [[? ?]|e]; [|intros [= ->]].
Qed.

Lemma width_checked_undefined tbn sym :
  tbn !! sym = None -> width_checked tbn sym = Raise (KeyError sym).
Proof. intros Hsym. unfold width_checked. by rewrite Hsym. Qed.

End ScannerlessFailures.

(** X10: provided the regular-expression library raises no grammar error of
    its own, a grammar error with which the construction of a scannerless
    frontend stops before building its engine is truthful: the regular
    expression it names is that of the (last) token definition of a
    terminal that occurs in a rule's right-hand side, and the width it
    names is the width of that expression, which is not (1, 1). *)
Theorem scannerless_grammar_error_reports_terminal `{C : Collaborators} {W : Type}
    (h : Handler W) (cls : FrontendClass) (lc : LexerConf) (pc : ParserConf string)
    (o : gmap string Value) (w : W) (regexp : string) (width : Z * Z) :
  scannerless cls = true ->
  re_raises_no_GrammarError ->
  let r := run h (class___init__ cls lc pc) o w in
  result r = Raise (GrammarError regexp width) ->
  trace r = [] ->
  exists sym,
    occurs pc sym /\ reported (token_by_name_of (tokens lc)) sym regexp width.
Proof.
  intros Hcls Hre r. unfold r. clear r.
  destruct cls; try discriminate Hcls; unfold class___init__.
  - rewrite Nearley_NoLex___init___run. cbv zeta.
    destruct (mapR (Nearley_NoLex_rule _ _) (rules pc)) as [rs|e] eqn:Hrs.
    { destruct (h _ w) as [[p|e] w2]; simpl; intros _ Ht; discriminate Ht. }
    simpl. intros [= ->] _.
    apply mapR_Raise_inv in Hrs as ([[n x] a] & Hin & Hrule).
    unfold Nearley_NoLex_rule in Hrule.
    destruct (mapR (Nearley_NoLex_symbol _) x) as [symbols|e] eqn:Hx.
    { by destruct (callback pc !! a). }
    injection Hrule as ->.
    destruct (symbols_GrammarError Nearley_NoLex_symbol _ x regexp width Hre
                (fun sym => Nearley_NoLex_symbol_GrammarError _ sym regexp width) Hx)
      as (sym & Hsym & Hrep).
    exists sym. split; [by exists n, x, a|done].
  - rewrite Earley_NoLex___init___run. cbv zeta.
    destruct (mapR (Earley_NoLex_rule _) (rules pc)) as [rs|e] eqn:Hrs.
    { destruct (h _ w) as [[p|e] w2]; simpl; intros _ Ht; discriminate Ht. }
    simpl. intros [= ->] _.
    apply mapR_Raise_inv in Hrs as ([[n x] a] & Hin & Hrule).
    unfold Earley_NoLex_rule in Hrule.
    destruct (mapR (Earley_NoLex_symbol _) x) as [symbols|e] eqn:Hx; [done|].
    injection Hrule as ->.
    destruct (symbols_GrammarError Earley_NoLex_symbol _ x regexp width Hre
                (fun sym => Earley_NoLex_symbol_GrammarError _ sym regexp width) Hx)
      as (sym & Hsym & Hrep).
    exists sym. split; [by exists n, x, a|done].
Qed.

Lemma scannerless_grammar_error_reports_terminal_witness :
  result (Toy.fresh Earley_NoLex ToyFailing.redefined Toy.parser_conf)
    = Raise (GrammarError "aa" (2, 2)) /\
  exists sym,
    occurs Toy.parser_conf sym /\
    reported (C := Toy.collaborators)
      (token_by_name_of (tokens ToyFailing.redefined)) sym "aa" (2, 2).
Proof.
  split; [reflexivity|].
  apply (@scannerless_grammar_error_reports_terminal Toy.collaborators nat Toy.handler
           Earley_NoLex ToyFailing.redefined Toy.parser_conf ∅ 0%nat "aa" (2, 2)).
  - reflexivity.
  - split; intros regexp; reflexivity.
  - reflexivity.
  - reflexivity.
Defined.

(** X11: when a terminal that occurs in a rule's right-hand side has no
    token definition, the construction of a scannerless frontend fails and
    builds no engine. *)
Theorem scannerless_undefined_terminal `{C : Collaborators} {W : Type}
    (h : Handler W) (cls : FrontendClass) (lc : LexerConf) (pc : ParserConf string)
    (o : gmap string Value) (w : W) (sym : string) :
  scannerless cls = true ->
  occurs pc sym ->
  is_terminal sym = true ->
  token_by_name_of (tokens lc) !! sym = None ->
  let r := run h (class___init__ cls lc pc) o w in
  is_Ok (result r) = false /\ trace r = [].
Proof.
  intros Hcls (n & x & a & Hin & Hsym) Hterm Hundef r. unfold r. clear r.
  destruct cls; try discriminate Hcls; unfold class___init__.
  - rewrite Nearley_NoLex___init___run. cbv zeta.
    assert (is_Ok (mapR (Nearley_NoLex_rule (token_by_name_of (tokens lc)) (callback pc))
                     (rules pc)) = false) as Hrs.
    { apply (mapR_In_Raise _ _ (n, x, a) Hin). unfold Nearley_NoLex_rule.
      assert (is_Ok (mapR (Nearley_NoLex_symbol (token_by_name_of (tokens lc))) x) = false)
        as Hx.
      { apply (mapR_In_Raise _ _ sym Hsym). unfold Nearley_NoLex_symbol.
        by rewrite Hterm, (width_checked_undefined _ sym Hundef). }
      by destruct (mapR _ x). }
    by destruct (mapR _ (rules pc)).
  - rewrite Earley_NoLex___init___run. cbv zeta.
    assert (is_Ok (mapR (Earley_NoLex_rule (token_by_name_of (tokens lc))) (rules pc))
            = false) as Hrs.
    { apply (mapR_In_Raise _ _ (n, x, a) Hin). unfold Earley_NoLex_rule.
      assert (is_Ok (mapR (Earley_NoLex_symbol (token_by_name_of (tokens lc))) x) = false)
        as Hx.
      { apply (mapR_In_Raise _ _ sym Hsym). unfold Earley_NoLex_symbol.
        by rewrite Hterm, (width_checked_undefined _ sym Hundef). }
      by destruct (mapR _ x). }
    by destruct (mapR _ (rules pc)).
Qed.

Lemma scannerless_undefined_terminal_witness :
  is_Ok (result (Toy.fresh Nearley_NoLex ToyScannerless.undefined_terminal
                   ToyScannerless.two_terminals)) = false /\
  trace (Toy.fresh Nearley_NoLex ToyScannerless.undefined_terminal
           ToyScannerless.two_terminals) = [].
Proof.
  apply (@scannerless_undefined_terminal Toy.collaborators nat Toy.handler Nearley_NoLex
           ToyScannerless.undefined_terminal ToyScannerless.two_terminals ∅ 0%nat "A").
  - reflexivity.
  - exists "start", ["A"; "B"], "f". simpl. auto.
  - reflexivity.
  - reflexivity.
Defined.

(** ** Token definitions that no rule uses *)

(** The token table of [Toy.lexer_conf] with one more definition, of width
    (2, 2), that no rule of [Toy.parser_conf] uses. *)
Definition Toy_unused_wide : @LexerConf Toy.collaborators :=
  @Build_LexerConf Toy.collaborators [("WS", "  "); ("A", "a"); ("B", "b")] ["WS"] None.

Section UnusedTokens.
Context `{C : Collaborators}.
Implicit Types (tbn : gmap string TokenDef).

Lemma mapR_ext_In {A B} (f g : A -> Result B) (l : list A) :
  (forall x, In x l -> f x = g x) -> mapR f l = mapR g l.
Proof.
  induction l as [|x l IH]; simpl; intros Hfg; [done|].
  rewrite (Hfg x (or_introl eq_refl)), IH; [done|]. intros y Hy. apply Hfg. by right.
Qed.

Lemma width_checked_lookup tbn1 tbn2 sym :
  tbn1 !! sym = tbn2 !! sym -> width_checked tbn1 sym = width_checked tbn2 sym.
Proof. intros Heq. unfold width_checked. by rewrite Heq. Qed.

Lemma scannerless_rules_agree tbn1 tbn2 (cb : gmap string Callable)
    (pc : ParserConf string) :
  (forall sym, occurs pc sym -> is_terminal sym = true -> tbn1 !! sym = tbn2 !! sym) ->
  mapR (Earley_NoLex_rule tbn1) (rules pc) = mapR (Earley_NoLex_rule tbn2) (rules pc) /\
  mapR (Nearley_NoLex_rule tbn1 cb) (rules pc) = mapR (Nearley_NoLex_rule tbn2 cb) (rules pc).
Proof.
  intros Hagree. split; apply mapR_ext_In; intros [[n x] a] Hin;
    unfold Earley_NoLex_rule, Nearley_NoLex_rule.
  - rewrite (mapR_ext_In (Earley_NoLex_symbol tbn1) (Earley_NoLex_symbol tbn2) x); [done|].
    intros sym Hsym. unfold Earley_NoLex_symbol.
    destruct (is_terminal sym) eqn:Hterm; [|done].
    rewrite (width_checked_lookup tbn1 tbn2 sym); [done|].
    apply Hagree; [by exists n, x, a|done].
  - rewrite (mapR_ext_In (Nearley_NoLex_symbol tbn1) (Nearley_NoLex_symbol tbn2) x); [done|].
    intros sym Hsym. unfold Nearley_NoLex_symbol.
    destruct (is_terminal sym) eqn:Hterm; [|done].
    rewrite (width_checked_lookup tbn1 tbn2 sym); [done|].
    apply Hagree; [by exists n, x, a|done].
Qed.

End UnusedTokens.

(** X12: the scannerless frontends look at the token definitions of the
    terminals that occur in the rules and at no other: two lexer
    configurations whose token tables bind those terminals alike give the
    same construction result, the same calls and the same collaborators'
    state, whatever else the tables hold; in particular a token definition
    that no rule uses is never width-checked. *)
Theorem scannerless_unused_tokens_ignored `{C : Collaborators} {W : Type}
    (h : Handler W) (cls : FrontendClass) (lc1 lc2 : LexerConf) (pc : ParserConf string)
    (o : gmap string Value) (w : W) :
  scannerless cls = true ->
  (forall sym, occurs pc sym -> is_terminal sym = true ->
     token_by_name_of (tokens lc1) !! sym = token_by_name_of (tokens lc2) !! sym) ->
  let r1 := run h (class___init__ cls lc1 pc) o w in
  let r2 := run h (class___init__ cls lc2 pc) o w in
  result r1 = result r2 /\ trace r1 = trace r2 /\ world r1 = world r2.
Proof.
  intros Hcls Hagree r1 r2. unfold r1, r2. clear r1 r2.
  destruct (scannerless_rules_agree _ _ (callback pc) pc Hagree) as [HE HN].
  destruct cls; try discriminate Hcls; unfold class___init__.
  - rewrite !Nearley_NoLex___init___run. cbv zeta. rewrite HN. clear HE HN.
    destruct (mapR (Nearley_NoLex_rule _ _) (rules pc)) as [rs|e]; [|done].
    by destruct (h _ w) as [[p|e] w2].
  - rewrite !Earley_NoLex___init___run. cbv zeta. rewrite HE. clear HE HN.
    destruct (mapR (Earley_NoLex_rule _) (rules pc)) as [rs|e]; [|done].
    by destruct (h _ w) as [[p|e] w2].
Qed.

Lemma scannerless_unused_tokens_ignored_witness :
  result (Toy.fresh Earley_NoLex Toy.lexer_conf Toy.parser_conf) = Ok tt /\
  result (Toy.fresh Earley_NoLex Toy.lexer_conf Toy.parser_conf)
    = result (Toy.fresh Earley_NoLex Toy_unused_wide Toy.parser_conf) /\
  trace (Toy.fresh Earley_NoLex Toy.lexer_conf Toy.parser_conf)
    = trace (Toy.fresh Earley_NoLex Toy_unused_wide Toy.parser_conf) /\
  world (Toy.fresh Earley_NoLex Toy.lexer_conf Toy.parser_conf)
    = world (Toy.fresh Earley_NoLex Toy_unused_wide Toy.parser_conf).
Proof.
  split; [reflexivity|].
  apply (@scannerless_unused_tokens_ignored Toy.collaborators nat Toy.handler Earley_NoLex
           Toy.lexer_conf Toy_unused_wide Toy.parser_conf ∅ 0%nat eq_refl).
  intros sym (n & x & a & Hin & Hsym) Hterm. simpl in Hin.
  destruct Hin as [Hin|[Hin|[]]]; injection Hin as <- <- <-; simpl in Hsym.
  - destruct Hsym as [<-|[<-|[]]]; [reflexivity|discriminate Hterm].
  - destruct Hsym as [<-|[]]. reflexivity.
Defined.
